(** * Conversation reconstruction and turn synthesis of the iMessage processor

    A shallow embedding of [imessage_processor.py] (class [iMessageProcessor])
    and of the values of [config.py] it reads, together with the properties
    the specification states about them.

    Python values are modelled as follows.
    - [str] is a list of Unicode code points ([N]); [bytes] is a list of
      [Byte.byte].
    - [None]-able values are [option]s; a [dict] that is iterated in
      insertion order is an association list.
    - a naive [datetime] is the integer count of microseconds it denotes;
      only its total order matters to the pipeline.
    - code that may raise returns a [PyResult]; a [try]/[except] that logs
      and goes on is [attempt].
    - the readings of the wall clock and the warnings about invalid
      timestamps are threaded through the pipeline as [Effects]. *)

From Stdlib Require Import List ZArith NArith Bool Lia Arith.
From Stdlib Require Strings.String Strings.Ascii Strings.Byte.
Import String.StringSyntax.
Delimit Scope string_scope with string.
From Stdlib Require Import Sorting.Permutation Sorting.Sorted.
Import ListNotations.

Set Implicit Arguments.

(* ------------------------------------------------------------------ *)
(** ** Python built-ins used by the pipeline *)

Module Py.

Abbreviation codepoint := N (only parsing).
Abbreviation str := (list N) (only parsing).
Abbreviation bytes := (list Byte.byte) (only parsing).

(** An ASCII literal as a [str]. *)
Definition lit (s : String.string) : str :=
  List.map Ascii.N_of_ascii (String.list_ascii_of_string s).

Arguments lit s%_string.

Definition dquote : codepoint := 34%N.
Definition newline : codepoint := 10%N.

Definition str_eqb (a b : str) : bool :=
  if list_eq_dec N.eq_dec a b then true else false.

Definition opt_str_eqb (a b : option str) : bool :=
  match a, b with
  | None, None => true
  | Some x, Some y => str_eqb x y
  | _, _ => false
  end.

(** [sep.join(parts)] *)
Fixpoint join (sep : str) (parts : list str) : str :=
  match parts with
  | [] => []
  | [p] => p
  | p :: rest => p ++ sep ++ join sep rest
  end.

(** Exceptions that the modelled code can meet. *)
Inductive exn :=
| OSError | ValueError | OverflowError | TypeError | IndexError
| OtherException.

Inductive PyResult (A : Type) :=
| Ret (a : A)
| Raise (e : exn).

Arguments Ret {A} a.
Arguments Raise {A} e.

Definition bind {A B} (r : PyResult A) (k : A -> PyResult B) : PyResult B :=
  match r with
  | Ret a => k a
  | Raise e => Raise e
  end.

(** *** [str] methods *)

Definition between (lo x hi : N) : bool := ((lo <=? x) && (x <=? hi))%N.

(** The code points [str.isspace] accepts, which are those [str.strip]
    removes. *)
Definition isspace (c : codepoint) : bool :=
  between 0x09 c 0x0D || between 0x1C c 0x20
  || (c =? 0x85)%N || (c =? 0xA0)%N || (c =? 0x1680)%N
  || between 0x2000 c 0x200A
  || (c =? 0x2028)%N || (c =? 0x2029)%N || (c =? 0x202F)%N
  || (c =? 0x205F)%N || (c =? 0x3000)%N.

Fixpoint lstrip (s : str) : str :=
  match s with
  | c :: s' => if isspace c then lstrip s' else s
  | [] => []
  end.

Definition rstrip (s : str) : str := rev (lstrip (rev s)).

(** [s.strip()] *)
Definition strip (s : str) : str := rstrip (lstrip s).

(** [s.split(sep)] for a one-character separator. *)
Fixpoint split (sep : codepoint) (s : str) : list str :=
  match s with
  | [] => [[]]
  | c :: s' =>
      if (c =? sep)%N then [] :: split sep s'
      else match split sep s' with
           | p :: ps => (c :: p) :: ps
           | [] => [[c]]
           end
  end.

(** [a < b] on [str]: lexicographic on code points. *)
Fixpoint str_ltb (a b : str) : bool :=
  match a, b with
  | _, [] => false
  | [], _ :: _ => true
  | x :: a', y :: b' => (x <? y)%N || ((x =? y)%N && str_ltb a' b')
  end.

(** *** Sorting

    [sorted] and [list.sort] are stable and compare with [<] only. *)
Fixpoint insert_by {A} (lt : A -> A -> bool) (x : A) (l : list A) : list A :=
  match l with
  | [] => [x]
  | y :: l' => if lt y x then y :: insert_by lt x l' else x :: l
  end.

Definition sort_by {A} (lt : A -> A -> bool) (l : list A) : list A :=
  fold_right (insert_by lt) [] l.

(** [sorted(l)] on a list of [str]. *)
Definition sorted (l : list str) : list str := sort_by str_ltb l.

(** *** [bytes.decode('utf-8', errors='ignore')]

    The decoder rejects overlong forms, surrogates and values above
    U+10FFFF; on an ill-formed sequence it drops the bytes read so far of
    that sequence and resumes at the offending byte; a sequence cut short
    by the end of the data is dropped. *)
Definition is_continuation (b : N) : bool := between 0x80 b 0xBF.

Definition low6 (b : N) : N := N.land b 0x3F.

Fixpoint utf8_ignore (data : list N) : str :=
  match data with
  | [] => []
  | ch :: r1 =>
      if (ch <? 0x80)%N then ch :: utf8_ignore r1
      else if (ch <? 0xC2)%N then utf8_ignore r1
      else if (ch <? 0xE0)%N then
        match r1 with
        | [] => []
        | ch2 :: r2 =>
            if is_continuation ch2
            then (N.shiftl (N.land ch 0x1F) 6 + low6 ch2)%N :: utf8_ignore r2
            else utf8_ignore r1
        end
      else if (ch <? 0xF0)%N then
        match r1 with
        | [] => []
        | ch2 :: r2 =>
            if negb (is_continuation ch2)
               || (if (ch2 <? 0xA0)%N then (ch =? 0xE0)%N else (ch =? 0xED)%N)
            then utf8_ignore r1
            else match r2 with
                 | [] => []
                 | ch3 :: r3 =>
                     if is_continuation ch3
                     then (N.shiftl (N.land ch 0x0F) 12
                           + N.shiftl (low6 ch2) 6 + low6 ch3)%N
                          :: utf8_ignore r3
                     else utf8_ignore r2
                 end
        end
      else if (ch <? 0xF5)%N then
        match r1 with
        | [] => []
        | ch2 :: r2 =>
            if negb (is_continuation ch2)
               || (if (ch2 <? 0x90)%N then (ch =? 0xF0)%N else (ch =? 0xF4)%N)
            then utf8_ignore r1
            else match r2 with
                 | [] => []
                 | ch3 :: r3 =>
                     if negb (is_continuation ch3) then utf8_ignore r2
                     else match r3 with
                          | [] => []
                          | ch4 :: r4 =>
                              if is_continuation ch4
                              then (N.shiftl (N.land ch 0x07) 18
                                    + N.shiftl (low6 ch2) 12
                                    + N.shiftl (low6 ch3) 6 + low6 ch4)%N
                                   :: utf8_ignore r4
                              else utf8_ignore r3
                          end
                 end
        end
      else utf8_ignore r1
  end.

Definition decode_utf8_ignore (data : bytes) : str :=
  utf8_ignore (List.map Byte.to_N data).

(** [len(x) > n] and [len(x) < n] *)
Definition len {A} (l : list A) : Z := Z.of_nat (length l).

(** What the interpreter's Unicode database decides. *)
Class UnicodeData := { isprintable : codepoint -> bool }.

(** The database restricted to Basic Latin and Latin-1; other code points
    are reported as not printable. *)
Definition latin1 : UnicodeData :=
  {| isprintable c :=
       between 0x20 c 0x7E || (between 0xA1 c 0xFF && negb (c =? 0xAD)%N) |}.

End Py.

Import Py.

(* ------------------------------------------------------------------ *)
(** ** Data model *)

(** A naive [datetime]; compared with [<], never inspected otherwise. *)
Definition datetime := Z.
Bind Scope Z_scope with datetime.

(** The dict built per surviving row in [get_messages_for_conversation]. *)
Record Message := mkMessage {
  m_message_id : Z;
  m_text : str;
  m_date : datetime;
  m_is_from_me : bool;
  m_sender_id : option str;
  m_phone_number : option str
}.

(** [current_turn] while it is being built (no ['text'] key yet). *)
Record TurnAcc := mkTurnAcc {
  acc_sender_id : option str;
  acc_is_from_me : bool;
  acc_messages : list str;
  acc_start_time : datetime;
  acc_end_time : datetime
}.

(** A turn once ['text'] has been set and it has been appended to [turns]. *)
Record Turn := mkTurn {
  t_sender_id : option str;
  t_is_from_me : bool;
  t_messages : list str;
  t_start_time : datetime;
  t_end_time : datetime;
  t_text : str
}.

(** Values of [config.py]. *)
Record Config := mkConfig {
  DAYS_BACK : option Z;
  MIN_MESSAGE_LENGTH : Z;
  MAX_MESSAGE_LENGTH : Z;
  MAX_TURN_GAP_SECONDS : Z;
  PROCESS_GROUP_CHATS : bool
}.

Definition config : Config :=
  {| DAYS_BACK := Some 30%Z;
     MIN_MESSAGE_LENGTH := 2;
     MAX_MESSAGE_LENGTH := 1000;
     MAX_TURN_GAP_SECONDS := 3000;
     PROCESS_GROUP_CHATS := false |}.

(* ------------------------------------------------------------------ *)
(** ** [group_messages_into_turns] *)

Module Segmenter.

(** The dict literal that opens a turn from one message. *)
Definition seed (m : Message) : TurnAcc :=
  {| acc_sender_id := m_sender_id m;
     acc_is_from_me := m_is_from_me m;
     acc_messages := [m_text m];
     acc_start_time := m_date m;
     acc_end_time := m_date m |}.

(** The test of the [if] in the loop body. *)
Definition same_sender (m : Message) (cur : TurnAcc) : bool :=
  opt_str_eqb (m_sender_id m) (acc_sender_id cur)
  && Bool.eqb (m_is_from_me m) (acc_is_from_me cur).

(** [current_turn['messages'].append(..); current_turn['end_time'] = ..] *)
Definition extend (cur : TurnAcc) (m : Message) : TurnAcc :=
  {| acc_sender_id := acc_sender_id cur;
     acc_is_from_me := acc_is_from_me cur;
     acc_messages := acc_messages cur ++ [m_text m];
     acc_start_time := acc_start_time cur;
     acc_end_time := m_date m |}.

(** [current_turn['text'] = ' '.join(current_turn['messages'])] *)
Definition freeze (cur : TurnAcc) : Turn :=
  {| t_sender_id := acc_sender_id cur;
     t_is_from_me := acc_is_from_me cur;
     t_messages := acc_messages cur;
     t_start_time := acc_start_time cur;
     t_end_time := acc_end_time cur;
     t_text := join (lit " ") (acc_messages cur) |}.

(** One iteration of [for message in messages[1:]] on the pair
    ([turns], [current_turn]). *)
Definition step (st : list Turn * TurnAcc) (message : Message)
  : list Turn * TurnAcc :=
  let (turns, current_turn) := st in
  if same_sender message current_turn
  then (turns, extend current_turn message)
  else (turns ++ [freeze current_turn], seed message).

Definition group_messages_into_turns (messages : list Message) : list Turn :=
  match messages with
  | [] => []
  | first :: rest =>
      let (turns, current_turn) := fold_left step rest ([], seed first) in
      turns ++ [freeze current_turn]
  end.

End Segmenter.

Import Segmenter.

(* ------------------------------------------------------------------ *)
(** ** [create_training_examples] *)

Module Synthesizer.

Definition CONVERSATION_STARTER : str := lit "[CONVERSATION_STARTER]".

(** [l[i]] for a non-negative index. *)
Definition index {A} (l : list A) (i : nat) : PyResult A :=
  match nth_error l i with
  | Some x => Ret x
  | None => Raise IndexError
  end.

(** The body of [for i, turn in enumerate(turns)], run on the turns that
    are still to come, with the list [examples] built so far. *)
Fixpoint examples_loop (turns : list Turn) (i : nat) (rest : list Turn)
    (examples : list (str * str)) : PyResult (list (str * str)) :=
  match rest with
  | [] => Ret examples
  | turn :: rest' =>
      if t_is_from_me turn then
        bind (if (0 <? i)%nat
              then bind (index turns (i - 1)) (fun prev => Ret (t_text prev))
              else Ret CONVERSATION_STARTER)
             (fun input_text =>
                let output_text := t_text turn in
                examples_loop turns (S i) rest'
                              (examples ++ [(input_text, output_text)]))
      else examples_loop turns (S i) rest' examples
  end.

Definition create_training_examples (turns : list Turn)
  : PyResult (list (str * str)) :=
  examples_loop turns 0 turns [].

End Synthesizer.

Import Synthesizer.

(* ------------------------------------------------------------------ *)
(** ** The fragment of [re] used by the junk filter *)

Module Re.

Inductive regex :=
| Eps
| Chr (c : codepoint)     (* a literal character *)
| Dot                     (* [.] *)
| Bol                     (* [^] *)
| Eol                     (* [$] *)
| Seq (r1 r2 : regex)
| Alt (r1 r2 : regex)
| Star (r : regex).

Definition ascii_lower (c : codepoint) : codepoint :=
  if between 65 c 90 then (c + 32)%N else c.

(** Whether the ASCII pattern character [c] matches the subject character
    [x] under [re.IGNORECASE]: equal up to ASCII case, or one of the four
    non-ASCII code points whose case mapping reaches [i], [k] or [s]. *)
Definition chr_ignorecase (c x : codepoint) : bool :=
  let lo := ascii_lower c in
  (ascii_lower x =? lo)%N
  || ((lo =? 105)%N && ((x =? 0x130)%N || (x =? 0x131)%N))
  || ((lo =? 107)%N && (x =? 0x212A)%N)
  || ((lo =? 115)%N && (x =? 0x17F)%N).

(** [$] holds at the end of the subject and just before a final newline. *)
Definition at_eol (s : str) : bool :=
  match s with
  | [] => true
  | [x] => (x =? newline)%N
  | _ => false
  end.

(** [accepts r k at0 s]: some way of matching [r] at the front of [s]
    leaves a rest that the continuation [k] accepts.  [at0] tells whether
    [s] is the whole subject. *)
Fixpoint accepts (r : regex) (k : bool -> str -> bool) (at0 : bool) (s : str)
  {struct r} : bool :=
  match r with
  | Eps => k at0 s
  | Chr c =>
      match s with
      | x :: s' => chr_ignorecase c x && k false s'
      | [] => false
      end
  | Dot =>
      match s with
      | x :: s' => negb (x =? newline)%N && k false s'
      | [] => false
      end
  | Bol => at0 && k at0 s
  | Eol => at_eol s && k at0 s
  | Seq r1 r2 => accepts r1 (accepts r2 k) at0 s
  | Alt r1 r2 => accepts r1 k at0 s || accepts r2 k at0 s
  | Star r1 =>
      (fix star (fuel : nat) (a : bool) (t : str) {struct fuel} : bool :=
         k a t
         || match fuel with
            | O => false
            | S fuel' =>
                accepts r1
                  (fun a' t' => (length t' <? length t)%nat && star fuel' a' t')
                  a t
            end) (length s) at0 s
  end.

(** [re.match(pattern, text, re.IGNORECASE)] is not [None]. *)
Definition re_match (pattern : regex) (text : str) : bool :=
  accepts pattern (fun _ _ => true) true text.

(** A run of literal characters. *)
Fixpoint word (w : str) : regex :=
  match w with
  | [] => Eps
  | c :: w' => Seq (Chr c) (word w')
  end.

(** [r|r1|...|rn] *)
Fixpoint alts (r : regex) (rs : list regex) : regex :=
  match rs with
  | [] => r
  | r' :: rs' => Alt r (alts r' rs')
  end.

(** Concatenation of the items of a pattern. *)
Fixpoint seq_of (rs : list regex) : regex :=
  match rs with
  | [] => Eps
  | r :: rs' => Seq r (seq_of rs')
  end.

End Re.

Import Re.

(* ------------------------------------------------------------------ *)
(** ** [is_junk_message] *)

Module JunkFilter.

Definition reaction_verbs : list str :=
  [lit "Liked"; lit "Loved"; lit "Laughed at"; lit "Disliked";
   lit "Emphasized"; lit "Questioned"].

(** [(Liked|Loved|Laughed at|Disliked|Emphasized|Questioned)] *)
Definition verbs : regex :=
  alts (word (lit "Liked"))
       [word (lit "Loved"); word (lit "Laughed at"); word (lit "Disliked");
        word (lit "Emphasized"); word (lit "Questioned")].

Definition tapback_patterns : list regex :=
  [ seq_of [Bol; verbs];
    seq_of [Bol; verbs; Chr 32%N; Chr dquote; Star Dot; Chr dquote; Eol] ].

Definition media_tokens : list str :=
  [lit "[IMAGE]"; lit "[URL]"; lit "[VIDEO]"; lit "[AUDIO]"; lit "[FILE]"].

(** [^\[IMAGE\]$] and its four siblings. *)
Definition attachment_patterns : list regex :=
  List.map (fun token => seq_of [Bol; word token; Eol]) media_tokens.

Definition is_junk_message (text : option str) : bool :=
  match text with
  | None => true
  | Some [] => true
  | Some text =>
      if existsb (fun pattern => re_match pattern text) tapback_patterns
      then true
      else if existsb (fun pattern => re_match pattern text) attachment_patterns
      then true
      else if (len (strip text) <? 2)%Z then true
      else false
  end.

End JunkFilter.

Import JunkFilter.

(* ------------------------------------------------------------------ *)
(** ** [decode_attributed_body] and [extract_message_text] *)

Module Extractor.

(** The two archive readers of pyobjc's Foundation, each taken with the
    test that follows it: [Ret (Some s)] when the archive yields a truthy
    object with a [string] attribute whose text is [s], [Ret None] when it
    yields no such object, [Raise e] when anything in the [try] raises. *)
Class Foundation := {
  keyed_unarchive : bytes -> PyResult (option str);
  legacy_unarchive : bytes -> PyResult (option str)
}.

(** [try: ... return x ... except Exception: log] as the value returned,
    if any. *)
Definition attempt (r : PyResult (option str)) : option str :=
  match r with
  | Ret (Some s) => Some s
  | Ret None => None
  | Raise _ => None
  end.

Section Decode.

Context {U : UnicodeData}.

(** [Some F] when [PYOBJC_AVAILABLE], [None] otherwise. *)
Variable pyobjc : option Foundation.

(** The body of step 3, "Fallback to raw UTF-8". *)
Definition raw_utf8_step (data : bytes) : PyResult (option str) :=
  let text := strip (decode_utf8_ignore data) in
  let clean_text := filter isprintable text in
  if (len clean_text >? 2)%Z then Ret (Some clean_text) else Ret None.

Definition decode_attributed_body (data : bytes) : option str :=
  match data with
  | [] => None
  | _ =>
      match pyobjc with
      | None =>
          attempt (Ret (Some (strip (decode_utf8_ignore data))))
      | Some F =>
          match attempt (keyed_unarchive data) with
          | Some s => Some s
          | None =>
              match attempt (legacy_unarchive data) with
              | Some s => Some s
              | None =>
                  match attempt (raw_utf8_step data) with
                  | Some s => Some s
                  | None => None
                  end
              end
          end
      end
  end.

(** [text] is truthy and so is [text.strip()]. *)
Definition has_text (text : option str) : bool :=
  match text with
  | Some (c :: t) => match strip (c :: t) with [] => false | _ => true end
  | _ => false
  end.

Definition extract_message_text (text : option str)
    (attributed_body : option bytes) : option str :=
  if has_text text then option_map strip text
  else match attributed_body with
       | Some (b :: data) => decode_attributed_body (b :: data)
       | _ => None
       end.

End Decode.

End Extractor.

Import Extractor.

(* ------------------------------------------------------------------ *)
(** ** The store as the processor sees it *)

Module Store.

(** A row of the message query:
    [message_id, text, attributedBody, date, is_from_me, handle_id,
    phone_number]. *)
Record Row := mkRow {
  r_message_id : Z;
  r_text : option str;
  r_attributedBody : option bytes;
  r_date : Z;
  r_is_from_me : Z;
  r_handle_id : option str;
  r_phone_number : option str
}.

(** What an open [sqlite3] connection answers to the two queries of the
    processor: the chats with their [GROUP_CONCAT]ed participants, and the
    messages of a list of chats from an optional cutoff on.  Either may
    raise.  No order of the rows is assumed. *)
Record Connection := mkConnection {
  chats_with_participants : PyResult (list (Z * option str));
  messages_of_chats : list Z -> option Z -> PyResult (list Row)
}.

(** The row of the first query for a chat whose joined handles are
    [handles], in the order [GROUP_CONCAT] happens to list them. *)
Definition participants_row (chat_id : Z) (handles : list str)
  : Z * option str :=
  (chat_id, Some (join (lit ",") handles)).

End Store.

Import Store.

(* ------------------------------------------------------------------ *)
(** ** [get_all_conversations] *)

Module Grouper.

(** The tuple used as dictionary key. *)
Abbreviation ParticipantKey := (list str) (only parsing).

(** The dictionary [conversations], in insertion order. *)
Abbreviation Conversations := (list (ParticipantKey * list Z)) (only parsing).

Definition key_eqb (a b : ParticipantKey) : bool :=
  if list_eq_dec (list_eq_dec N.eq_dec) a b then true else false.

Definition comma : codepoint := 44%N.

(** [tuple(sorted(participants_str.split(',')))] *)
Definition participant_key (participants_str : str) : ParticipantKey :=
  sorted (split comma participants_str).

(** [if key not in conversations: conversations[key] = []]
    [conversations[key].append(chat_id)] *)
Fixpoint append_chat (key : ParticipantKey) (chat_id : Z)
    (conversations : Conversations) : Conversations :=
  match conversations with
  | [] => [(key, [chat_id])]
  | (k, chat_ids) :: rest =>
      if key_eqb k key then (k, chat_ids ++ [chat_id]) :: rest
      else (k, chat_ids) :: append_chat key chat_id rest
  end.

(** The body of [for chat_id, participants_str in cursor.fetchall()]. *)
Definition add_row (conversations : Conversations) (row : Z * option str)
  : Conversations :=
  let (chat_id, participants_str) := row in
  match participants_str with
  | Some (c :: p) => append_chat (participant_key (c :: p)) chat_id conversations
  | _ => conversations
  end.

Definition get_all_conversations (connection : option Connection)
  : Conversations :=
  match connection with
  | None => []
  | Some conn =>
      match chats_with_participants conn with
      | Ret rows => fold_left add_row rows []
      | Raise _ => []
      end
  end.

End Grouper.

Import Grouper.

(* ------------------------------------------------------------------ *)
(** ** Timestamps, [get_messages_for_conversation] and the orchestrator *)

Module Pipeline.

(** What the interpreter and the operating system decide: float
    arithmetic, the local-time conversion, the calendar and the wall clock.
    [datetime_now n] is what the [n]-th reading of the clock in a run
    returns. *)
Class Platform := {
  pyfloat : Type;
  int_truediv : Z -> Z -> PyResult pyfloat;
  float_add_int : pyfloat -> Z -> pyfloat;
  datetime_fromtimestamp : pyfloat -> PyResult datetime;
  datetime_now : nat -> datetime;
  (** [now - timedelta(days=days)] *)
  datetime_minus_days : datetime -> Z -> PyResult datetime;
  (** [int((cutoff_date.timestamp() - 978307200) * 1_000_000_000)] *)
  cutoff_timestamp : datetime -> PyResult Z;
  (** [cutoff_date.strftime('%Y-%m-%d')]; the text only goes to the log *)
  strftime_date : datetime -> PyResult unit
}.

(** An idealised platform for examples: exact arithmetic at microsecond
    resolution, UTC, years 1 to 9999, a [timedelta] of at most 999999999
    days, a clock that advances by one second per reading from
    2025-01-01. *)
Definition exact_platform : Platform :=
  {| pyfloat := Z;
     int_truediv a b :=
       if (b =? 0)%Z then Raise OtherException else Ret (a * 1000000 / b)%Z;
     float_add_int f n := (f + n * 1000000)%Z;
     datetime_fromtimestamp f :=
       if ((f <? -62135596800 * 1000000) || (253402300799 * 1000000 <? f))%Z
       then Raise ValueError else Ret f;
     datetime_now n := (1735689600 * 1000000 + Z.of_nat n * 1000000)%Z;
     datetime_minus_days now days :=
       if (999999999 <? Z.abs days)%Z then Raise OverflowError
       else
         let d := (now - days * 86400 * 1000000)%Z in
         if ((d <? -62135596800 * 1000000) || (253402300799999999 <? d))%Z
         then Raise OverflowError else Ret d;
     cutoff_timestamp d := Ret ((d - 978307200 * 1000000) * 1000)%Z;
     strftime_date _ := Ret tt |}.

(** What a run leaves behind besides its results: how often it has read
    the wall clock, and the timestamps named by the warnings of
    [convert_messages_timestamp], oldest first.  The other lines of the
    log are not kept. *)
Record Effects := mkEffects {
  clock_reads : nat;
  invalid_timestamp_warnings : list Z
}.

(** The state in which a run starts. *)
Definition fresh_run : Effects := mkEffects 0 [].

(** The state after one more reading of the clock. *)
Definition tick (fx : Effects) : Effects :=
  {| clock_reads := S (clock_reads fx);
     invalid_timestamp_warnings := invalid_timestamp_warnings fx |}.

(** [logger.warning(f"Invalid timestamp {timestamp}, using current time")] *)
Definition warn_invalid_timestamp (timestamp : Z) (fx : Effects) : Effects :=
  {| clock_reads := clock_reads fx;
     invalid_timestamp_warnings :=
       invalid_timestamp_warnings fx ++ [timestamp] |}.

Section WithEnvironment.

Context {U : UnicodeData} {P : Platform}.
Variable pyobjc : option Foundation.
Variable cfg : Config.

(** The body of the [try] of [convert_messages_timestamp]. *)
Definition from_messages_epoch (timestamp : Z) : PyResult datetime :=
  bind (int_truediv timestamp 1000000000)
       (fun seconds =>
          let unix_timestamp := float_add_int seconds 978307200 in
          datetime_fromtimestamp unix_timestamp).

(** The handler logs the warning and then reads the clock. *)
Definition convert_messages_timestamp (timestamp : Z) (fx : Effects)
  : PyResult datetime * Effects :=
  match from_messages_epoch timestamp with
  | Ret d => (Ret d, fx)
  | Raise OSError | Raise ValueError =>
      let fx := warn_invalid_timestamp timestamp fx in
      (Ret (datetime_now (clock_reads fx)), tick fx)
  | Raise e => (Raise e, fx)
  end.

(** [for row in rows] with the list [messages] built so far. *)
Fixpoint collect_messages (rows : list Row) (messages : list Message)
    (fx : Effects) : PyResult (list Message) * Effects :=
  match rows with
  | [] => (Ret messages, fx)
  | row :: rows' =>
      let extracted_text :=
        extract_message_text pyobjc (r_text row) (r_attributedBody row) in
      match extracted_text with
      | Some (c :: t) =>
          if negb (is_junk_message extracted_text) then
            match convert_messages_timestamp (r_date row) fx with
            | (Ret date, fx') =>
                collect_messages rows'
                  (messages ++
                   [{| m_message_id := r_message_id row;
                       m_text := c :: t;
                       m_date := date;
                       m_is_from_me := negb (r_is_from_me row =? 0)%Z;
                       m_sender_id := r_handle_id row;
                       m_phone_number := r_phone_number row |}])
                  fx'
            | (Raise e, fx') => (Raise e, fx')
            end
          else collect_messages rows' messages fx
      | _ => collect_messages rows' messages fx
      end
  end.

(** [messages.sort(key=lambda m: m['date'])] *)
Definition sort_by_date (messages : list Message) : list Message :=
  sort_by (fun a b => (m_date a <? m_date b)%Z) messages.

(** [cutoff_date = datetime.now() - timedelta(days=DAYS_BACK)], which
    raises [OverflowError] when the date leaves the calendar. *)
Definition lookback_date (days : Z) (fx : Effects)
  : PyResult datetime * Effects :=
  (datetime_minus_days (datetime_now (clock_reads fx)) days, tick fx).

(** Lines 253 to 258 of [get_messages_for_conversation]: the cutoff handed
    to the query, [None] when [DAYS_BACK] is [None].  Nothing catches what
    these lines raise. *)
Definition lookback_cutoff (fx : Effects) : PyResult (option Z) * Effects :=
  match DAYS_BACK cfg with
  | None => (Ret None, fx)
  | Some days =>
      let (cutoff_date, fx') := lookback_date days fx in
      (bind cutoff_date (fun cutoff_date =>
       bind (cutoff_timestamp cutoff_date) (fun cutoff =>
       bind (strftime_date cutoff_date) (fun _ =>
       Ret (Some cutoff)))),
       fx')
  end.

(** The result is [Raise] when the function raises; the [try] covers the
    query and the loop only. *)
Definition get_messages_for_conversation (connection : option Connection)
    (chat_ids : list Z) (fx : Effects) : PyResult (list Message) * Effects :=
  match connection, chat_ids with
  | None, _ => (Ret [], fx)
  | _, [] => (Ret [], fx)
  | Some conn, _ =>
      match lookback_cutoff fx with
      | (Raise e, fx1) => (Raise e, fx1)
      | (Ret cutoff, fx1) =>
          match messages_of_chats conn chat_ids cutoff with
          | Raise _ => (Ret [], fx1)
          | Ret rows =>
              match collect_messages rows [] fx1 with
              | (Ret messages, fx2) => (Ret (sort_by_date messages), fx2)
              | (Raise _, fx2) => (Ret [], fx2)
              end
          end
      end
  end.

(** The dictionary comprehension that keeps the keys of length 1 when
    [PROCESS_GROUP_CHATS] is false. *)
Definition select_conversations (conversations : Conversations)
  : Conversations :=
  if negb (PROCESS_GROUP_CHATS cfg)
  then filter (fun '(p, cids) => (length p =? 1)%nat) conversations
  else conversations.

(** Lines 422 to 426 of [process_all_conversations]: the date range is
    computed again, for the log only. *)
Definition lookback_notice (fx : Effects) : PyResult unit * Effects :=
  match DAYS_BACK cfg with
  | None => (Ret tt, fx)
  | Some days =>
      let (cutoff_date, fx') := lookback_date days fx in
      (bind cutoff_date strftime_date, fx')
  end.

(** [for i, (participants, chat_ids) in enumerate(conversations.items())];
    what [get_messages_for_conversation] raises leaves the loop. *)
Fixpoint process_conversations (conn : Connection)
    (conversations : Conversations) (all_examples : list (str * str))
    (fx : Effects) : PyResult (list (str * str)) * Effects :=
  match conversations with
  | [] => (Ret all_examples, fx)
  | (participants, chat_ids) :: rest =>
      match get_messages_for_conversation (Some conn) chat_ids fx with
      | (Raise e, fx') => (Raise e, fx')
      | (Ret [], fx') => process_conversations conn rest all_examples fx'
      | (Ret messages, fx') =>
          let turns := group_messages_into_turns messages in
          match create_training_examples turns with
          | Ret examples =>
              process_conversations conn rest (all_examples ++ examples) fx'
          | Raise e => (Raise e, fx')
          end
      end
  end.

(** The body of the [try] of [process_all_conversations], which has a
    [finally] and no [except]; [db] is the connection
    [connect_to_database] obtains, if any. *)
Definition process_all_conversations (db : option Connection) (fx : Effects)
  : PyResult (list (str * str)) * Effects :=
  match db with
  | None => (Ret [], fx)
  | Some conn =>
      let conversations := get_all_conversations (Some conn) in
      let conversations := select_conversations conversations in
      match lookback_notice fx with
      | (Raise e, fx1) => (Raise e, fx1)
      | (Ret _, fx1) => process_conversations conn conversations [] fx1
      end
  end.

End WithEnvironment.

End Pipeline.

Import Pipeline.

(* ------------------------------------------------------------------ *)
(** ** Vocabulary of the turn properties *)

Definition msg_key (m : Message) : option str * bool :=
  (m_sender_id m, m_is_from_me m).

Definition acc_key (c : TurnAcc) : option str * bool :=
  (acc_sender_id c, acc_is_from_me c).

Definition turn_key (t : Turn) : option str * bool :=
  (t_sender_id t, t_is_from_me t).

(** The turn [t] is exactly the run [chunk] of input messages. *)
Definition Represents (chunk : list Message) (t : Turn) : Prop :=
  chunk <> []
  /\ Forall (fun m => msg_key m = turn_key t) chunk
  /\ t_messages t = map m_text chunk
  /\ t_text t = join (lit " ") (map m_text chunk)
  /\ hd_error (map m_date chunk) = Some (t_start_time t)
  /\ hd_error (rev (map m_date chunk)) = Some (t_end_time t).

(** The same for the turn still being accumulated. *)
Definition RepresentsAcc (chunk : list Message) (c : TurnAcc) : Prop :=
  chunk <> []
  /\ Forall (fun m => msg_key m = acc_key c) chunk
  /\ acc_messages c = map m_text chunk
  /\ hd_error (map m_date chunk) = Some (acc_start_time c)
  /\ hd_error (rev (map m_date chunk)) = Some (acc_end_time c).

(** Every two adjacent turns have different (sender_id, is_from_me). *)
Fixpoint neighbours_differ (ts : list Turn) : Prop :=
  match ts with
  | t1 :: ((t2 :: _) as tl) => turn_key t1 <> turn_key t2 /\ neighbours_differ tl
  | _ => True
  end.

(** The loop of [group_messages_into_turns] read as a recursion on the
    messages still to come: the turns emitted from [cur] onwards. *)
Fixpoint turns_from (cur : TurnAcc) (rest : list Message) : list Turn :=
  match rest with
  | [] => [freeze cur]
  | m :: rest' =>
      if same_sender m cur
      then turns_from (extend cur m) rest'
      else freeze cur :: turns_from (seed m) rest'
  end.

(** What of a message or a turn does not mention time. *)
Definition untimed_message (m : Message)
  : Z * str * bool * option str * option str :=
  (m_message_id m, m_text m, m_is_from_me m, m_sender_id m, m_phone_number m).

Definition untimed_turn (t : Turn) : option str * bool * list str * str :=
  (t_sender_id t, t_is_from_me t, t_messages t, t_text t).

(* ------------------------------------------------------------------ *)
(** ** Vocabulary of the training-pair properties *)

Definition is_self_at (turns : list Turn) (i : nat) : bool :=
  match nth_error turns i with
  | Some t => t_is_from_me t
  | None => false
  end.

(** The indices of the turns with [is_from_me], ascending. *)
Definition self_indices (turns : list Turn) : list nat :=
  filter (is_self_at turns) (seq 0 (length turns)).

(** [ex] is the pair the specification prescribes for the turn at index [i]. *)
Definition pair_of_turn (turns : list Turn) (i : nat) (ex : str * str) : Prop :=
  exists t,
    nth_error turns i = Some t
    /\ t_is_from_me t = true
    /\ snd ex = t_text t
    /\ match i with
       | O => fst ex = CONVERSATION_STARTER
       | S j => exists p, nth_error turns j = Some p /\ fst ex = t_text p
       end.

(* ------------------------------------------------------------------ *)
(** ** Vocabulary of the merge properties *)

(** The row passes text extraction and the junk filter. *)
Definition survives {U : UnicodeData} (pyobjc : option Foundation) (row : Row)
  : bool :=
  match extract_message_text pyobjc (r_text row) (r_attributedBody row) with
  | Some (c :: t) => negb (is_junk_message (Some (c :: t)))
  | _ => false
  end.

Definition date_le (a b : Message) : Prop := (m_date a <= m_date b)%Z.

(** [a <= b] as a sort comparing with [lt] sees it: not [b < a]. *)
Definition le_of {A : Type} (lt : A -> A -> bool) (a b : A) : Prop :=
  lt b a = false.

(** The conversion of the timestamp either succeeds or raises one of the
    two exceptions [convert_messages_timestamp] handles. *)
Definition conversion_handled {P : Platform} (timestamp : Z) : Prop :=
  match from_messages_epoch timestamp with
  | Ret _ => True
  | Raise e => e = OSError \/ e = ValueError
  end.

(** The message [m] is what the loop of [get_messages_for_conversation]
    builds from [row]: the row's id, sender and phone number, the flag as a
    boolean, the extracted text, and as date the converted timestamp or,
    when the conversion raised [OSError] or [ValueError], a reading of the
    clock. *)
Definition message_of_row {U : UnicodeData} {P : Platform}
    (pyobjc : option Foundation) (row : Row) (m : Message) : Prop :=
  m_message_id m = r_message_id row
  /\ extract_message_text pyobjc (r_text row) (r_attributedBody row)
     = Some (m_text m)
  /\ m_is_from_me m = negb (r_is_from_me row =? 0)%Z
  /\ m_sender_id m = r_handle_id row
  /\ m_phone_number m = r_phone_number row
  /\ (from_messages_epoch (r_date row) = Ret (m_date m)
      \/ exists k e,
           from_messages_epoch (r_date row) = Raise e
           /\ (e = OSError \/ e = ValueError)
           /\ m_date m = datetime_now k).

(** The row passes the filters and its date cannot be converted: the
    conversion raises one of the two exceptions that are handled. *)
Definition redated {U : UnicodeData} {P : Platform}
    (pyobjc : option Foundation) (row : Row) : bool :=
  survives pyobjc row
  && match from_messages_epoch (r_date row) with
     | Raise OSError | Raise ValueError => true
     | _ => false
     end.

(** The effects of the loop over [rows] when it ends normally: one warning
    and one reading of the clock for each row that is re-dated, in row
    order. *)
Definition after_rows {U : UnicodeData} {P : Platform}
    (pyobjc : option Foundation) (rows : list Row) (fx : Effects) : Effects :=
  {| clock_reads := clock_reads fx + length (filter (redated pyobjc) rows);
     invalid_timestamp_warnings :=
       invalid_timestamp_warnings fx
       ++ map r_date (filter (redated pyobjc) rows) |}.

(** Between the states [fx] and [fx'] of a run no invalid timestamp has
    been reported: the log holds the same warnings. *)
Definition unreported (fx fx' : Effects) : Prop :=
  invalid_timestamp_warnings fx' = invalid_timestamp_warnings fx.

(* ------------------------------------------------------------------ *)
(** ** Vocabulary of the extraction properties *)

(** The raw salvage decode in the words of the specification: the blob as
    UTF-8 with invalid bytes dropped, reduced to its printable characters,
    accepted only if more than 2 of them remain. *)
Definition raw_salvage_spec {U : UnicodeData} (data : bytes) : option str :=
  let printable := filter isprintable (decode_utf8_ignore data) in
  if (2 <? len printable)%Z then Some printable else None.

(** [text_field] is present and non-empty after trimming. *)
Definition text_present (text : option str) : Prop :=
  exists t, text = Some t /\ strip t <> [].

(* ------------------------------------------------------------------ *)
(** ** Vocabulary of the junk-filter properties *)

(** [t] is [w] up to case, character by character. *)
Definition ci_eq (w t : str) : Prop :=
  Forall2 (fun c x => chr_ignorecase c x = true) w t.

(** The text begins with one of the reaction verbs, optionally followed by
    a quoted excerpt; nothing is required of what comes after. *)
Definition reaction_shorthand (text : str) : Prop :=
  exists verb head excerpt rest,
    In verb reaction_verbs
    /\ ci_eq verb head
    /\ (excerpt = []
        \/ exists quoted, excerpt = [32%N; dquote] ++ quoted ++ [dquote])
    /\ text = head ++ excerpt ++ rest.

(** The text is one of the media placeholders and nothing else. *)
Definition bare_media_token (text : str) : Prop :=
  exists token, In token media_tokens /\ ci_eq token text.

(** The same, allowing one final newline after the placeholder. *)
Definition media_token_line (text : str) : Prop :=
  exists token,
    In token media_tokens
    /\ (ci_eq token text
        \/ exists head, text = head ++ [newline] /\ ci_eq token head).

(** The classification as the specification words it. *)
Definition junk_as_specified (text : option str) : Prop :=
  text = None \/ text = Some []
  \/ exists t,
       text = Some t
       /\ (reaction_shorthand t \/ bare_media_token t
           \/ (len (strip t) < MIN_MESSAGE_LENGTH config)%Z).

(** The classification with the placeholder rule as the code applies it and
    the threshold as the code writes it. *)
Definition junk_as_amended (text : option str) : Prop :=
  text = None \/ text = Some []
  \/ exists t,
       text = Some t
       /\ (reaction_shorthand t \/ media_token_line t
           \/ (len (strip t) < 2)%Z).

(** The text of Scenario C: [Loved "ok"]. *)
Definition loved_ok : str := lit "Loved " ++ [dquote] ++ lit "ok" ++ [dquote].

(* ------------------------------------------------------------------ *)
(** ** Sample stores *)

Module Samples.

Definition handle_A : str := lit "+15550001".
Definition handle_B : str := lit "+15550002".

(** Two chats with the single participant A, and one with A listed twice. *)
Definition store_same_participant : Connection :=
  {| chats_with_participants :=
       Ret [participants_row 1 [handle_A];
            participants_row 2 [handle_A; handle_A];
            participants_row 3 [handle_A]];
     messages_of_chats := fun _ _ => Ret [] |}.

(** One chat with A, one group chat with B and A. *)
Definition store_with_group : Connection :=
  {| chats_with_participants :=
       Ret [participants_row 1 [handle_A];
            participants_row 2 [handle_B; handle_A]];
     messages_of_chats := fun _ _ => Ret [] |}.

(** Scenario A: A says [hi], then [there]; Me answers [hey]. *)
Definition scenario_A : list Message :=
  [ mkMessage 1 (lit "hi") 32400000000 false (Some handle_A) None;
    mkMessage 2 (lit "there") 32460000000 false (Some handle_A) None;
    mkMessage 3 (lit "hey") 32700000000 true None None ].

(** Two messages of A ten days apart, and the same a microsecond apart. *)
Definition far_apart : list Message :=
  [ mkMessage 1 (lit "hi") 0 false (Some handle_A) None;
    mkMessage 2 (lit "there") 864000000000 false (Some handle_A) None ].

Definition close_together : list Message :=
  [ mkMessage 1 (lit "hi") 5 false (Some handle_A) None;
    mkMessage 2 (lit "there") 6 false (Some handle_A) None ].

(** A timestamp beyond year 9999, which the conversion rejects. *)
Definition corrupt_timestamp : Z := 1000000000000000000000.

(** The message query answered from a table of rows with the chat each is
    joined to, as the SQL asks: the rows of the chats asked for, dated at
    or after the cutoff if there is one, ascending by date. *)
Definition select_messages (table : list (Z * Row)) (chat_ids : list Z)
    (cutoff : option Z) : PyResult (list Row) :=
  Ret (sort_by (fun a b => (r_date a <? r_date b)%Z)
         (map snd
            (filter (fun cr =>
                       existsb (Z.eqb (fst cr)) chat_ids
                       && match cutoff with
                          | Some c => (c <=? r_date (snd cr))%Z
                          | None => true
                          end)
                    table))).

(** 2024-12-04 *)
Definition row_hello : Row :=
  mkRow 1 (Some (lit "hello")) None 755000000000000000 0 (Some handle_A) None.

Definition row_corrupt : Row :=
  mkRow 2 (Some (lit " see you ")) None corrupt_timestamp 1 None None.

Definition row_tapback : Row :=
  mkRow 3 (Some loved_ok) None 755000000500000000 0 (Some handle_A) None.

(** 2024-12-02, with its text in the blob *)
Definition row_earlier : Row :=
  mkRow 4 None (Some [Byte.x6f; Byte.x6b; Byte.x21]) 754800000000000000 0
        (Some handle_A) None.

(** 2020-01-06, before any cutoff of thirty days *)
Definition row_old : Row :=
  mkRow 5 (Some (lit "long ago")) None 600000000000000000 0 (Some handle_A)
        None.

Definition row_elsewhere : Row :=
  mkRow 6 (Some (lit "not ours")) None 755000000000000000 0 (Some handle_B)
        None.

(** 2025-01-31, after the first readings of the clock of [exact_platform] *)
Definition row_ahead : Row :=
  mkRow 7 (Some (lit "tomorrow")) None 760000000000000000 0 (Some handle_A)
        None.

(** Two chats with A and one with B.  Of the messages of the chats with A
    one has a corrupt date, one is a tapback, one has its text in the blob,
    one is older than a month and one is dated ahead of the clock. *)
Definition store_two_threads : Connection :=
  {| chats_with_participants :=
       Ret [participants_row 1 [handle_A]; participants_row 2 [handle_A];
            participants_row 3 [handle_B]];
     messages_of_chats :=
       select_messages
         [ (1, row_hello); (2, row_corrupt); (1, row_tapback);
           (3, row_elsewhere); (2, row_earlier); (1, row_old);
           (1, row_ahead) ]%Z |}.

(** The configuration of [config.py] with a lookback of 999999 days, which
    reaches before year 1. *)
Definition config_far_back : Config :=
  {| DAYS_BACK := Some 999999%Z;
     MIN_MESSAGE_LENGTH := MIN_MESSAGE_LENGTH config;
     MAX_MESSAGE_LENGTH := MAX_MESSAGE_LENGTH config;
     MAX_TURN_GAP_SECONDS := MAX_TURN_GAP_SECONDS config;
     PROCESS_GROUP_CHATS := PROCESS_GROUP_CHATS config |}.

End Samples.

Import Samples.

(* ------------------------------------------------------------------ *)
(** ** Vocabulary of the further turn properties *)

(** Whether two messages carry the same (sender_id, is_from_me). *)
Definition same_key (a b : Message) : bool := same_sender b (seed a).

(** The number of adjacent messages that differ in (sender_id, is_from_me). *)
Fixpoint key_changes (l : list Message) : nat :=
  match l with
  | a :: ((b :: _) as tl) => (if same_key a b then 0 else 1) + key_changes tl
  | _ => 0
  end.

(** Every turn ends no later than the next one starts. *)
Fixpoint turns_in_order (ts : list Turn) : Prop :=
  match ts with
  | t1 :: ((t2 :: _) as tl) =>
      (t_end_time t1 <= t_start_time t2)%Z /\ turns_in_order tl
  | _ => True
  end.

(* ------------------------------------------------------------------ *)
(** ** Vocabulary of the further merge and orchestrator properties *)

(** The date computation of the lookback raises [e] at some point of a
    run: in [get_messages_for_conversation] or in
    [process_all_conversations]. *)
Definition lookback_raises {P : Platform} (cfg : Config) (e : exn) : Prop :=
  exists fx,
    fst (lookback_cutoff cfg fx) = Raise e
    \/ fst (lookback_notice cfg fx) = Raise e.

Module MoreSamples.

(** [exact_platform], except that the true division of an integer of 319
    digits or more raises [OverflowError], the quotient being too large for
    a float. *)
Definition overflowing_platform : Platform :=
  {| pyfloat := Z;
     int_truediv a b :=
       if (10 ^ 318 <=? Z.abs a)%Z then Raise OverflowError
       else int_truediv (Platform := exact_platform) a b;
     float_add_int := float_add_int (Platform := exact_platform);
     datetime_fromtimestamp :=
       datetime_fromtimestamp (Platform := exact_platform);
     datetime_now := datetime_now (Platform := exact_platform);
     datetime_minus_days := datetime_minus_days (Platform := exact_platform);
     cutoff_timestamp := cutoff_timestamp (Platform := exact_platform);
     strftime_date := strftime_date (Platform := exact_platform) |}.

Definition msg_hi : Message :=
  mkMessage 1 (lit "hi") 32400000000 false (Some handle_A) None.

Definition msg_there : Message :=
  mkMessage 2 (lit "there") 32460000000 false (Some handle_A) None.

Definition msg_hey : Message :=
  mkMessage 3 (lit "hey") 32700000000 true None None.

Definition row_overflow : Row :=
  mkRow 5 (Some (lit "way too late")) None (10 ^ 400) 0 (Some handle_A) None.

(** A chat in which one message carries a date too large to divide. *)
Definition store_overflow : Connection :=
  {| chats_with_participants := Ret [participants_row 1 [handle_A]];
     messages_of_chats :=
       select_messages [ (1, row_overflow); (1, row_hello) ]%Z |}.

End MoreSamples.

Import MoreSamples.

(* ------------------------------------------------------------------ *)
(** ** Vocabulary of the further grouping properties *)

(** The key of a row of the chat query, when its participants string is
    neither NULL nor empty. *)
Definition row_key (row : Z * option str) : option ParticipantKey :=
  match snd row with
  | Some (c :: p) => Some (participant_key (c :: p))
  | _ => None
  end.

(** The keys of the rows that have one, in row order. *)
Definition row_keys (rows : list (Z * option str)) : list ParticipantKey :=
  flat_map (fun row => match row_key row with
                       | Some k => [k]
                       | None => []
                       end) rows.

Definition has_key (key : ParticipantKey) (row : Z * option str) : bool :=
  match row_key row with
  | Some k => key_eqb k key
  | None => false
  end.

(** The row has a participants string that is neither NULL nor empty. *)
Definition has_participants (row : Z * option str) : bool :=
  match row_key row with
  | Some _ => true
  | None => false
  end.

(** The chat ids of the rows with the key [key], in row order. *)
Definition chats_with_key (key : ParticipantKey) (rows : list (Z * option str))
  : list Z :=
  map fst (filter (has_key key) rows).

(** The distinct keys of a list, each at its first occurrence. *)
Fixpoint first_seen (keys : list ParticipantKey) : list ParticipantKey :=
  match keys with
  | [] => []
  | k :: ks => k :: filter (fun k' => negb (key_eqb k k')) (first_seen ks)
  end.

Definition key_in (keys : list ParticipantKey) (k : ParticipantKey) : bool :=
  existsb (key_eqb k) keys.

(** The keys of [ks] that are not among [seen]. *)
Definition fresh_keys (seen ks : list ParticipantKey) : list ParticipantKey :=
  filter (fun k => negb (key_in seen k)) ks.

Definition bucket_of (rows : list (Z * option str)) (k : ParticipantKey)
  : ParticipantKey * list Z :=
  (k, chats_with_key k rows).

(** A bucket that exists already, with the chats the rows add to it. *)
Definition with_later_chats (rows : list (Z * option str))
    (kv : ParticipantKey * list Z) : ParticipantKey * list Z :=
  (fst kv, snd kv ++ chats_with_key (fst kv) rows).

(* ------------------------------------------------------------------ *)
(** ** Vocabulary of the further filter and extraction properties *)

(** The first characters a junk pattern can match: L, D, E, Q in either
    case, and the opening bracket. *)
Definition may_open_junk (c : codepoint) : bool :=
  existsb (N.eqb c) [76; 108; 68; 100; 69; 101; 81; 113; 91]%N.

(** [c] with an ASCII lower-case letter replaced by its capital. *)
Definition ascii_upper (c : codepoint) : codepoint :=
  if between 97 c 122 then (c - 32)%N else c.

(** The text neither starts nor ends with a whitespace character. *)
Definition trimmed (s : str) : Prop :=
  (exists x r, s = x :: r /\ isspace x = false)
  /\ (exists r y, s = r ++ [y] /\ isspace y = false).

(* ------------------------------------------------------------------ *)
(** ** The processor object and [main] *)

Module Processor.

(** A [sqlite3] connection object: what the database answers through it
    while it is open, and whether [close()] has been called on it. *)
Record Handle := mkHandle {
  h_answers : Connection;
  h_closed : bool
}.

(** What a query gets from the object: once closed, every use raises
    ([sqlite3.ProgrammingError]). *)
Definition answers_of (h : Handle) : Connection :=
  if h_closed h
  then {| chats_with_participants := Raise OtherException;
          messages_of_chats := fun _ _ => Raise OtherException |}
  else h_answers h.

(** A path, as its components. *)
Abbreviation Path := (list str) (only parsing).

(** The home directory, the file system and [sqlite3.connect]. *)
Record World := mkWorld {
  home : Path;
  path_exists : Path -> PyResult bool;
  sqlite3_connect : Path -> PyResult Connection
}.

(** The attributes of an [iMessageProcessor]. *)
Record Self := mkSelf {
  db_path : Path;
  connection : option Handle
}.

(** [__init__(db_path)] *)
Definition init (w : World) (path : option Path) : Self :=
  {| db_path :=
       match path with
       | None => home w ++ [lit "Library"; lit "Messages"; lit "chat.db"]
       | Some p => p
       end;
     connection := None |}.

Definition connect_to_database (w : World) (self : Self) : bool * Self :=
  match path_exists w (db_path self) with
  | Ret true =>
      match sqlite3_connect w (db_path self) with
      | Ret c =>
          (true, {| db_path := db_path self;
                    connection := Some (mkHandle c false) |})
      | Raise _ => (false, self)
      end
  | Ret false => (false, self)
  | Raise _ => (false, self)
  end.

Definition close_connection (self : Self) : Self :=
  match connection self with
  | Some h =>
      {| db_path := db_path self;
         connection := Some (mkHandle (h_answers h) true) |}
  | None => self
  end.

(** [self.connection] as [get_all_conversations] and
    [get_messages_for_conversation] use it. *)
Definition self_connection (self : Self) : option Connection :=
  option_map answers_of (connection self).

Section Run.

Context {U : UnicodeData} {P : Platform}.
Variable pyobjc : option Foundation.
Variable cfg : Config.

(** [process_all_conversations] as a method: connect, run the body, and
    close the connection in the [finally], also when the body raises. *)
Definition run_all_conversations (w : World) (self : Self) (fx : Effects)
  : (PyResult (list (str * str)) * Effects) * Self :=
  let (connected, self1) := connect_to_database w self in
  if connected
  then (process_all_conversations pyobjc cfg (self_connection self1) fx,
        close_connection self1)
  else ((Ret [], fx), self1).

(** What [main] does with the pairs. *)
Inductive Outcome :=
| Saved (examples : list (str * str))   (* [save_to_csv(examples)] is called *)
| NothingGenerated.                     (* the error is logged *)

(** What [process_all_conversations] raises is not caught. *)
Definition main (w : World) (fx : Effects) : PyResult Outcome :=
  let processor := init w None in
  match fst (fst (run_all_conversations w processor fx)) with
  | Ret [] => Ret NothingGenerated
  | Ret examples => Ret (Saved examples)
  | Raise e => Raise e
  end.

End Run.

(** A world in which the database file exists and opens on
    [store_two_threads]. *)
Definition sample_world : World :=
  {| home := [lit "Users"; lit "me"];
     path_exists := fun _ => Ret true;
     sqlite3_connect := fun _ => Ret store_two_threads |}.

End Processor.

Import Processor.

(* ================================================================== *)
(** * Properties *)

Lemma str_eqb_eq (a b : str) : str_eqb a b = true <-> a = b.
Proof.
  unfold str_eqb. destruct (list_eq_dec N.eq_dec a b); split; congruence.
Qed.

Lemma opt_str_eqb_eq (a b : option str) : opt_str_eqb a b = true <-> a = b.
Proof.
  destruct a as [x|], b as [y|]; simpl; try (split; congruence).
  rewrite str_eqb_eq. split; congruence.
Qed.


(* ------------------------------------------------------------------ *)
(** ** Turn segmentation *)

Section TurnSegmenter.

Lemma same_sender_key (m : Message) (cur : TurnAcc) :
  same_sender m cur = true <-> msg_key m = acc_key cur.
Proof.
  unfold same_sender, msg_key, acc_key.
  rewrite andb_true_iff, opt_str_eqb_eq, Bool.eqb_true_iff.
  split; [intros [-> ->]; reflexivity | intros [= -> ->]; auto].
Qed.

Lemma fold_step_turns_from (rest : list Message) :
  forall turns cur,
    (let (ts, c) := fold_left step rest (turns, cur) in ts ++ [freeze c])
    = turns ++ turns_from cur rest.
Proof.
  induction rest as [|m rest IH]; intros turns cur; simpl.
  - reflexivity.
  - destruct (same_sender m cur).
    + apply IH.
    + rewrite IH, <- app_assoc. reflexivity.
Qed.

Lemma group_turns_from (m : Message) (rest : list Message) :
  group_messages_into_turns (m :: rest) = turns_from (seed m) rest.
Proof.
  unfold group_messages_into_turns.
  apply (fold_step_turns_from rest [] (seed m)).
Qed.

Lemma seed_represents (m : Message) : RepresentsAcc [m] (seed m).
Proof.
  unfold RepresentsAcc; simpl. repeat split; try discriminate.
  constructor; [reflexivity | constructor].
Qed.

Lemma extend_represents chunk cur m :
  RepresentsAcc chunk cur -> msg_key m = acc_key cur ->
  RepresentsAcc (chunk ++ [m]) (extend cur m).
Proof.
  intros (Hne & Hall & Hmsgs & Hstart & Hend) Hk.
  unfold RepresentsAcc. simpl. repeat split.
  - destruct chunk; discriminate.
  - apply Forall_app; split; [exact Hall | constructor; [exact Hk | constructor]].
  - rewrite Hmsgs, map_app. reflexivity.
  - destruct chunk as [|a chunk]; [contradiction | exact Hstart].
  - rewrite map_app, rev_app_distr. reflexivity.
Qed.

Lemma freeze_represents chunk cur :
  RepresentsAcc chunk cur -> Represents chunk (freeze cur).
Proof.
  intros (Hne & Hall & Hmsgs & Hstart & Hend).
  unfold Represents; simpl. rewrite Hmsgs. repeat split; assumption.
Qed.

Lemma turns_from_head cur rest :
  exists t ts, turns_from cur rest = t :: ts /\ turn_key t = acc_key cur.
Proof.
  revert cur; induction rest as [|m rest IH]; intros cur; simpl.
  - eexists _, _; split; reflexivity.
  - destruct (same_sender m cur).
    + destruct (IH (extend cur m)) as (t & ts & -> & Hk).
      eexists _, _; split; [reflexivity | exact Hk].
    + eexists _, _; split; reflexivity.
Qed.

Lemma turns_from_spec (rest : list Message) :
  forall cur chunk,
    RepresentsAcc chunk cur ->
    exists chunks,
      concat chunks = chunk ++ rest
      /\ Forall2 Represents chunks (turns_from cur rest)
      /\ neighbours_differ (turns_from cur rest).
Proof.
  induction rest as [|m rest IH]; intros cur chunk Hrep; simpl.
  - exists [chunk]. simpl. repeat split.
    constructor; [apply freeze_represents; exact Hrep | constructor].
  - destruct (same_sender m cur) eqn:Hs.
    + apply same_sender_key in Hs.
      destruct (IH _ _ (extend_represents Hrep Hs)) as (chunks & Hc & Hf & Hn).
      exists chunks. rewrite Hc, <- app_assoc. auto.
    + destruct (IH _ _ (seed_represents m)) as (chunks & Hc & Hf & Hn).
      exists (chunk :: chunks). simpl. rewrite Hc. repeat split.
      * constructor; [apply freeze_represents; exact Hrep | exact Hf].
      * destruct (turns_from_head (seed m) rest) as (t & ts & Ht & Hk).
        rewrite Ht in *. split; [| exact Hn].
        intros Heq. change (turn_key (freeze cur)) with (acc_key cur) in Heq.
        rewrite Hk in Heq.
        assert (same_sender m cur = true) by (apply same_sender_key; symmetry; exact Heq).
        congruence.
Qed.

Lemma represents_messages chunks ts :
  Forall2 Represents chunks ts ->
  concat (map t_messages ts) = map m_text (concat chunks)
  /\ Forall (fun t => t_messages t <> []) ts.
Proof.
  induction 1 as [|c t cs ts Hr _ [IH1 IH2]]; simpl.
  - split; [reflexivity | constructor].
  - destruct Hr as (Hne & _ & Hm & _). rewrite map_app, IH1, Hm. split.
    + reflexivity.
    + constructor; [| exact IH2]. rewrite Hm. destruct c; [contradiction | discriminate].
Qed.

End TurnSegmenter.

Lemma represents_last chunks ts pre (m : Message) :
  Forall2 Represents chunks ts ->
  concat chunks = pre ++ [m] ->
  exists ts' t ms, ts = ts' ++ [t] /\ t_messages t = ms ++ [m_text m].
Proof.
  intros Hf Hc.
  destruct (exists_last (l := chunks)) as (cs & c & ->).
  { intros ->. destruct pre; discriminate. }
  apply Forall2_app_inv_l in Hf as (ts' & tl & Hcs & Hlast & ->).
  inversion Hlast as [|c0 t l0 tl0 Hr Hnil]; subst. inversion Hnil; subst.
  destruct Hr as (Hne & _ & Hm & _).
  destruct (exists_last Hne) as (c' & x & ->).
  rewrite concat_app in Hc. simpl in Hc. rewrite app_nil_r, app_assoc in Hc.
  apply app_inj_tail in Hc as [_ ->].
  exists ts', t, (map m_text c'). split; [reflexivity |].
  rewrite Hm, map_app. reflexivity.
Qed.

Lemma group_represents (messages : list Message) :
  exists chunks,
    concat chunks = messages
    /\ Forall2 Represents chunks (group_messages_into_turns messages)
    /\ neighbours_differ (group_messages_into_turns messages).
Proof.
  destruct messages as [|m rest].
  - exists []. simpl. repeat split. constructor.
  - rewrite group_turns_from.
    destruct (turns_from_spec rest (seed_represents m)) as (chunks & Hc & Hf & Hn).
    exists chunks. auto.
Qed.

(** C1. For every message list, [group_messages_into_turns] returns turns
    that are consecutive runs of the input: the runs concatenate to the
    input, every message of a run carries its turn's (sender_id, is_from_me),
    adjacent turns carry different pairs, no turn has an empty message list,
    the turns' message lists concatenate to the input texts, the accumulator
    left by the loop is emitted as the last turn (so the last message is the
    last text of the last turn), and the empty input gives no turn. *)
Theorem turn_closure (messages : list Message) :
  let turns := group_messages_into_turns messages in
  (messages = [] -> turns = [])
  /\ (exists chunks,
        concat chunks = messages /\ Forall2 Represents chunks turns)
  /\ neighbours_differ turns
  /\ Forall (fun t => t_messages t <> []) turns
  /\ concat (map t_messages turns) = map m_text messages
  /\ (forall first rest, messages = first :: rest ->
        turns = fst (fold_left step rest ([], seed first))
                ++ [freeze (snd (fold_left step rest ([], seed first)))])
  /\ (forall pre m, messages = pre ++ [m] ->
        exists ts t ms, turns = ts ++ [t] /\ t_messages t = ms ++ [m_text m]).
Proof.
  intros turns.
  pose proof (group_represents messages) as Hchunks. fold turns in Hchunks.
  destruct Hchunks as (chunks & Hc & Hf & Hn).
  destruct (represents_messages Hf) as [Hcat Hne].
  split; [intros ->; reflexivity |].
  split; [exists chunks; auto |].
  split; [exact Hn |].
  split; [exact Hne |].
  split; [rewrite Hcat, Hc; reflexivity |].
  split.
  - intros first rest ->. subst turns. unfold group_messages_into_turns.
    destruct (fold_left step rest ([], seed first)); reflexivity.
  - intros pre m ->. eapply represents_last; eauto.
Qed.

Lemma turns_from_untimed (r1 r2 : list Message) :
  Forall2 (fun a b => untimed_message a = untimed_message b) r1 r2 ->
  forall c1 c2,
    acc_key c1 = acc_key c2 -> acc_messages c1 = acc_messages c2 ->
    map untimed_turn (turns_from c1 r1) = map untimed_turn (turns_from c2 r2).
Proof.
  induction 1 as [|a b r1 r2 Hab _ IH]; intros c1 c2 Hk Hm; simpl.
  - unfold untimed_turn; simpl. injection Hk as -> ->. rewrite Hm. reflexivity.
  - injection Hab as Hid Ht Hme Hs Hp.
    assert (Hsame : same_sender a c1 = same_sender b c2).
    { unfold same_sender. injection Hk as -> ->. rewrite Hs, Hme. reflexivity. }
    rewrite Hsame. destruct (same_sender b c2).
    + apply IH; simpl; [exact Hk | rewrite Hm, Ht; reflexivity].
    + simpl. f_equal.
      * unfold untimed_turn; simpl. injection Hk as -> ->. rewrite Hm. reflexivity.
      * apply IH; simpl; [unfold acc_key; simpl; congruence | congruence].
Qed.

(** C9. Turn boundaries depend only on (sender_id, is_from_me): two message
    lists that agree on everything but the dates are cut into turns with the
    same senders, flags, message lists and texts; and two messages of one
    sender form a single turn even when they are further apart than
    MAX_TURN_GAP_SECONDS, which the segmenter never reads. *)
Theorem turns_ignore_timestamps (l1 l2 : list Message) :
  Forall2 (fun a b => untimed_message a = untimed_message b) l1 l2 ->
  map untimed_turn (group_messages_into_turns l1)
  = map untimed_turn (group_messages_into_turns l2)
  /\ (forall (cfg : Config) m1 m2,
        l1 = [m1; m2] -> msg_key m1 = msg_key m2 ->
        (m_date m2 - m_date m1 > MAX_TURN_GAP_SECONDS cfg * 1000000)%Z ->
        map t_messages (group_messages_into_turns l1)
        = [[m_text m1; m_text m2]]).
Proof.
  intros H. split.
  - destruct H as [|a b r1 r2 Hab Hr].
    + reflexivity.
    + rewrite !group_turns_from. apply turns_from_untimed; [exact Hr | |].
      * injection Hab as _ _ Hme Hs _. unfold acc_key; simpl. congruence.
      * injection Hab as _ Ht _ _ _. simpl. congruence.
  - intros cfg m1 m2 -> Hk _. rewrite group_turns_from. simpl.
    assert (Hs : same_sender m2 (seed m1) = true)
      by (apply same_sender_key; symmetry; exact Hk).
    rewrite Hs. reflexivity.
Qed.

(* ------------------------------------------------------------------ *)
(** ** Training pairs *)

Lemma examples_loop_spec (turns rest : list Turn) :
  forall done acc,
    turns = done ++ rest ->
    exists E,
      examples_loop turns (length done) rest acc = Ret (acc ++ E)
      /\ Forall2 (pair_of_turn turns)
                 (filter (is_self_at turns) (seq (length done) (length rest))) E
      /\ map snd E = map t_text (filter t_is_from_me rest).
Proof.
  induction rest as [|turn rest IH]; intros done acc Hturns.
  - exists []. simpl. rewrite app_nil_r. repeat split. constructor.
  - assert (Hnth : nth_error turns (length done) = Some turn).
    { rewrite Hturns, nth_error_app2, Nat.sub_diag by lia. reflexivity. }
    assert (Hturns' : turns = (done ++ [turn]) ++ rest)
      by (rewrite <- app_assoc; exact Hturns).
    assert (Hlen : length (done ++ [turn]) = S (length done))
      by (rewrite length_app; simpl; lia).
    cbn [examples_loop length seq filter].
    unfold is_self_at at 1. rewrite Hnth.
    destruct (t_is_from_me turn) eqn:Hme.
    + assert (Hin : exists input,
                 (if (0 <? length done)%nat
                  then bind (index turns (length done - 1))
                            (fun prev => Ret (t_text prev))
                  else Ret CONVERSATION_STARTER) = Ret input
                 /\ match length done with
                    | O => input = CONVERSATION_STARTER
                    | S j => exists p, nth_error turns j = Some p
                                       /\ input = t_text p
                    end).
      { destruct done as [|d done'] using rev_ind.
        - exists CONVERSATION_STARTER. simpl. auto.
        - clear IHdone'. rewrite length_app; simpl.
          replace (length done' + 1)%nat with (S (length done')) by lia.
          replace (S (length done') - 1)%nat with (length done') by lia.
          assert (Hd : nth_error turns (length done') = Some d).
          { rewrite Hturns, <- app_assoc, nth_error_app2, Nat.sub_diag by lia.
            reflexivity. }
          exists (t_text d). unfold index. rewrite Hd. simpl. eauto. }
      destruct Hin as (input & -> & Hinput). cbn [bind].
      destruct (IH (done ++ [turn]) (acc ++ [(input, t_text turn)]) Hturns')
        as (E & Hloop & Hpairs & Hout).
      rewrite Hlen in Hloop, Hpairs.
      exists ((input, t_text turn) :: E). split; [| split].
      * rewrite Hloop, <- app_assoc. reflexivity.
      * constructor; [| exact Hpairs].
        exists turn. simpl. repeat split; auto.
      * simpl. rewrite Hout. reflexivity.
    + destruct (IH (done ++ [turn]) acc Hturns') as (E & Hloop & Hpairs & Hout).
      rewrite Hlen in Hloop, Hpairs.
      exists E. auto.
Qed.

(** C2. [create_training_examples] returns, without raising, one pair per
    turn whose [is_from_me] is true and nothing else: as many pairs as such
    turns, in turn order, the pair of the turn at index [i] having that
    turn's text as output and as input the text of the turn at [i - 1], or
    the sentinel [[CONVERSATION_STARTER]] when [i = 0]. *)
Theorem training_pairs (turns : list Turn) :
  exists examples,
    create_training_examples turns = Ret examples
    /\ length examples = length (filter t_is_from_me turns)
    /\ Forall2 (pair_of_turn turns) (self_indices turns) examples
    /\ map snd examples = map t_text (filter t_is_from_me turns)
    /\ CONVERSATION_STARTER = lit "[CONVERSATION_STARTER]".
Proof.
  destruct (@examples_loop_spec turns turns [] [] eq_refl) as (E & Hloop & Hp & Ho).
  exists E. repeat split; try assumption.
  rewrite <- (length_map snd), Ho, length_map. reflexivity.
Qed.

(* ------------------------------------------------------------------ *)
(** ** The stable sort *)

Section StableSort.

Variable A : Type.
Variable lt : A -> A -> bool.

Hypothesis lt_asym : forall a b, lt a b = true -> lt b a = false.

Lemma insert_by_perm (x : A) (l : list A) :
  Permutation (x :: l) (insert_by lt x l).
Proof.
  induction l as [|y l IH]; simpl.
  - apply Permutation_refl.
  - destruct (lt y x).
    + eapply perm_trans; [apply perm_swap | apply perm_skip, IH].
    + apply Permutation_refl.
Qed.

Lemma sort_by_perm (l : list A) : Permutation l (sort_by lt l).
Proof.
  induction l as [|x l IH]; simpl.
  - constructor.
  - eapply perm_trans; [apply perm_skip, IH | apply insert_by_perm].
Qed.

Lemma insert_by_hd (x y : A) (l : list A) :
  lt y x = true -> HdRel (le_of lt) y l -> HdRel (le_of lt) y (insert_by lt x l).
Proof.
  intros Hyx Hhd. destruct l as [|z l]; simpl.
  - constructor. apply lt_asym, Hyx.
  - destruct (lt z x); constructor.
    + inversion Hhd; assumption.
    + apply lt_asym, Hyx.
Qed.

Lemma insert_by_sorted (x : A) (l : list A) :
  Sorted (le_of lt) l -> Sorted (le_of lt) (insert_by lt x l).
Proof.
  induction 1 as [|y l Hs IH Hhd]; simpl.
  - repeat constructor.
  - destruct (lt y x) eqn:Hyx.
    + constructor; [exact IH | apply insert_by_hd; assumption].
    + constructor; [constructor; assumption | constructor; exact Hyx].
Qed.

Lemma sort_by_sorted (l : list A) : Sorted (le_of lt) (sort_by lt l).
Proof.
  induction l as [|x l IH]; simpl.
  - constructor.
  - apply insert_by_sorted, IH.
Qed.

Hypothesis le_trans : forall a b c, (le_of lt) a b -> (le_of lt) b c -> (le_of lt) a c.

Lemma sort_by_strongly_sorted (l : list A) :
  StronglySorted (le_of lt) (sort_by lt l).
Proof.
  apply Sorted_StronglySorted; [exact le_trans | apply sort_by_sorted].
Qed.

Hypothesis le_antisym : forall a b, (le_of lt) a b -> (le_of lt) b a -> a = b.

Lemma strongly_sorted_perm_eq (l1 : list A) :
  forall l2,
    StronglySorted (le_of lt) l1 -> StronglySorted (le_of lt) l2 ->
    Permutation l1 l2 -> l1 = l2.
Proof.
  induction l1 as [|a l1 IH]; intros l2 H1 H2 Hp.
  - apply Permutation_nil in Hp. auto.
  - destruct l2 as [|b l2].
    + apply Permutation_sym, Permutation_nil in Hp. discriminate.
    + apply StronglySorted_inv in H1 as [H1 Ha].
      apply StronglySorted_inv in H2 as [H2 Hb].
      assert (Hab : a = b).
      { assert (Ina : In a (b :: l2))
          by (eapply Permutation_in; [exact Hp | left; reflexivity]).
        assert (Inb : In b (a :: l1))
          by (eapply Permutation_in;
              [apply Permutation_sym; exact Hp | left; reflexivity]).
        destruct Ina as [-> | Ina]; [reflexivity |].
        destruct Inb as [-> | Inb]; [reflexivity |].
        rewrite Forall_forall in Ha, Hb.
        apply le_antisym; [apply Ha, Inb | apply Hb, Ina]. }
      subst b. f_equal. apply IH; try assumption.
      eapply Permutation_cons_inv; exact Hp.
Qed.

Lemma sort_by_perm_eq (l1 l2 : list A) :
  Permutation l1 l2 -> sort_by lt l1 = sort_by lt l2.
Proof.
  intros Hp. apply strongly_sorted_perm_eq;
    try apply sort_by_strongly_sorted.
  eapply perm_trans; [apply Permutation_sym, sort_by_perm |].
  eapply perm_trans; [exact Hp | apply sort_by_perm].
Qed.

End StableSort.

(* ------------------------------------------------------------------ *)
(** ** Merging the messages of a conversation *)

Lemma strongly_sorted_split {A} (R : A -> A -> Prop) (l1 : list A) (x : A)
    (l2 : list A) :
  StronglySorted R (l1 ++ x :: l2) ->
  Forall (fun y => R y x) l1 /\ Forall (R x) l2.
Proof.
  induction l1 as [|a l1 IH]; simpl; intros H.
  - split; [constructor | apply StronglySorted_inv in H; apply H].
  - apply StronglySorted_inv in H as [Hs Hall].
    destruct (IH Hs) as [H1 H2]. split; [| exact H2].
    constructor; [| exact H1].
    rewrite Forall_app in Hall. destruct Hall as [_ Hx].
    apply Forall_inv in Hx. exact Hx.
Qed.

Section Merge.

Context {U : UnicodeData} {P : Platform}.
Variable pyobjc : option Foundation.
Variable cfg : Config.

Lemma sort_by_date_sorted (messages : list Message) :
  StronglySorted date_le (sort_by_date messages).
Proof.
  unfold sort_by_date.
  pose proof (@sort_by_strongly_sorted Message
                (fun a b => (m_date a <? m_date b)%Z)) as H.
  unfold le_of in H.
  eapply StronglySorted_ind with (P := StronglySorted date_le).
  3: { apply H.
       - intros a b Hab. apply Z.ltb_lt in Hab. apply Z.ltb_ge. lia.
       - intros a b c Hab Hbc. apply Z.ltb_ge in Hab, Hbc. apply Z.ltb_ge. lia. }
  - constructor.
  - intros a l _ IH Hall. constructor; [exact IH |].
    eapply Forall_impl; [| exact Hall].
    intros b Hb. apply Z.ltb_ge in Hb. exact Hb.
Qed.

Lemma sort_by_date_perm (messages : list Message) :
  Permutation messages (sort_by_date messages).
Proof. apply sort_by_perm. Qed.

Lemma collect_messages_none (rows : list Row) :
  Forall (fun row => survives pyobjc row = false) rows ->
  forall messages fx,
    collect_messages pyobjc rows messages fx = (Ret messages, fx).
Proof.
  induction 1 as [|row rows Hrow _ IH]; intros messages fx;
    cbn [collect_messages].
  - reflexivity.
  - unfold survives in Hrow.
    destruct (extract_message_text pyobjc (r_text row) (r_attributedBody row))
      as [[|c t]|]; try apply IH.
    destruct (negb _); [discriminate | apply IH].
Qed.

Lemma collect_messages_app (r1 r2 : list Row) :
  forall messages fx,
    collect_messages pyobjc (r1 ++ r2) messages fx
    = match collect_messages pyobjc r1 messages fx with
      | (Ret collected, fx') => collect_messages pyobjc r2 collected fx'
      | (Raise e, fx') => (Raise e, fx')
      end.
Proof.
  induction r1 as [|row r1 IH]; intros messages fx; [reflexivity |].
  cbn [app collect_messages].
  destruct (extract_message_text pyobjc (r_text row) (r_attributedBody row))
    as [[|c t]|]; try apply IH.
  destruct (negb _); [| apply IH].
  destruct (convert_messages_timestamp (r_date row) fx) as [[d|e] fx'];
    [apply IH | reflexivity].
Qed.

Lemma convert_handled (timestamp : Z) (fx : Effects) :
  conversion_handled timestamp ->
  convert_messages_timestamp timestamp fx
  = match from_messages_epoch timestamp with
    | Ret d => (Ret d, fx)
    | Raise _ =>
        (Ret (datetime_now (clock_reads fx)),
         tick (warn_invalid_timestamp timestamp fx))
    end.
Proof.
  unfold conversion_handled, convert_messages_timestamp.
  destruct (from_messages_epoch timestamp) as [d|e]; [reflexivity |].
  intros [-> | ->]; reflexivity.
Qed.

Lemma after_rows_nil (fx : Effects) : after_rows pyobjc [] fx = fx.
Proof.
  destruct fx as [n w]. unfold after_rows. simpl.
  rewrite Nat.add_0_r, app_nil_r. reflexivity.
Qed.

Lemma after_rows_kept (row : Row) (rows : list Row) (fx : Effects) :
  redated pyobjc row = false ->
  after_rows pyobjc (row :: rows) fx = after_rows pyobjc rows fx.
Proof.
  intros H. unfold after_rows. cbn [filter]. rewrite H. reflexivity.
Qed.

Lemma after_rows_redated (row : Row) (rows : list Row) (fx : Effects) :
  redated pyobjc row = true ->
  after_rows pyobjc (row :: rows) fx
  = after_rows pyobjc rows (tick (warn_invalid_timestamp (r_date row) fx)).
Proof.
  intros H. unfold after_rows. cbn [filter]. rewrite H.
  cbn [length map tick warn_invalid_timestamp clock_reads
       invalid_timestamp_warnings].
  f_equal; [lia | rewrite <- app_assoc; reflexivity].
Qed.

Lemma after_rows_app (r1 r2 : list Row) (fx : Effects) :
  after_rows pyobjc (r1 ++ r2) fx
  = after_rows pyobjc r2 (after_rows pyobjc r1 fx).
Proof.
  unfold after_rows. cbn [clock_reads invalid_timestamp_warnings].
  rewrite filter_app, length_app, map_app.
  f_equal; [lia | rewrite app_assoc; reflexivity].
Qed.

(** The loop over rows whose conversions raise nothing unhandled: one
    message per surviving row, in row order, and the effects of the
    re-dated rows. *)
Lemma collect_messages_rows (rows : list Row) :
  Forall (fun r => conversion_handled (r_date r)) rows ->
  forall messages fx,
  exists extra,
    collect_messages pyobjc rows messages fx
    = (Ret (messages ++ extra), after_rows pyobjc rows fx)
    /\ Forall2 (message_of_row pyobjc) (filter (survives pyobjc) rows) extra.
Proof.
  induction 1 as [|row rows Hrow _ IH]; intros messages fx.
  - exists []. simpl. rewrite app_nil_r, after_rows_nil.
    split; [reflexivity | constructor].
  - cbn [collect_messages filter].
    pose proof (eq_refl (redated pyobjc row)) as Hred.
    unfold redated at 2 in Hred. revert Hred. unfold survives.
    destruct (extract_message_text pyobjc (r_text row) (r_attributedBody row))
      as [[|c t]|] eqn:Hext.
    1, 3: intros Hred; rewrite after_rows_kept by exact Hred; apply IH.
    destruct (negb _) eqn:Hjunk;
      [| intros Hred; rewrite after_rows_kept by exact Hred; apply IH].
    rewrite convert_handled by exact Hrow. unfold conversion_handled in Hrow.
    destruct (from_messages_epoch (r_date row)) as [d|e] eqn:Hconv.
    + intros Hred. rewrite after_rows_kept by exact Hred.
      match goal with
      | |- context [collect_messages _ _ (messages ++ [?m]) _] => set (msg := m)
      end.
      destruct (IH (messages ++ [msg]) fx) as (extra & Hc & Hall).
      exists (msg :: extra). split.
      * rewrite Hc, <- app_assoc. reflexivity.
      * constructor; [| exact Hall].
        unfold message_of_row. subst msg. simpl. rewrite Hext, Hconv.
        repeat split; auto.
    + intros Hred.
      assert (Hred' : redated pyobjc row = true)
        by (rewrite Hred; destruct Hrow as [-> | ->]; reflexivity).
      rewrite after_rows_redated by exact Hred'.
      match goal with
      | |- context [collect_messages _ _ (messages ++ [?m]) _] => set (msg := m)
      end.
      destruct (IH (messages ++ [msg])
                   (tick (warn_invalid_timestamp (r_date row) fx)))
        as (extra & Hc & Hall).
      exists (msg :: extra). split.
      * rewrite Hc, <- app_assoc. reflexivity.
      * constructor; [| exact Hall].
        unfold message_of_row. subst msg. simpl. rewrite Hext, Hconv.
        repeat split; auto.
        right. exists (clock_reads fx), e. auto.
Qed.

Lemma collect_messages_raises (rows : list Row) :
  forall messages fx row e,
    In row rows -> survives pyobjc row = true ->
    from_messages_epoch (r_date row) = Raise e ->
    e <> OSError -> e <> ValueError ->
    exists e' fx',
      collect_messages pyobjc rows messages fx = (Raise e', fx').
Proof.
  induction rows as [|r rows IH]; intros messages fx row e Hin Hs Hconv H1 H2;
    [destruct Hin |].
  cbn [collect_messages]. destruct Hin as [-> | Hin].
  - unfold survives in Hs.
    destruct (extract_message_text pyobjc (r_text row) (r_attributedBody row))
      as [[|c t]|]; try discriminate.
    destruct (negb _); [| discriminate].
    unfold convert_messages_timestamp. rewrite Hconv.
    destruct e; try contradiction; eexists _, _; reflexivity.
  - destruct (extract_message_text pyobjc (r_text r) (r_attributedBody r))
      as [[|c t]|]; try (eapply IH; eauto).
    destruct (negb _); [| eapply IH; eauto].
    destruct (convert_messages_timestamp (r_date r) fx) as [[d|e0] fx1].
    + eapply IH; eauto.
    + eexists _, _; reflexivity.
Qed.

(** Once the cutoff is computed, what is left is the [try]. *)
Lemma get_messages_with_cutoff conn chat_ids fx cutoff :
  chat_ids <> [] ->
  fst (lookback_cutoff cfg fx) = Ret cutoff ->
  get_messages_for_conversation pyobjc cfg (Some conn) chat_ids fx
  = match messages_of_chats conn chat_ids cutoff with
    | Raise _ => (Ret [], snd (lookback_cutoff cfg fx))
    | Ret rows =>
        match collect_messages pyobjc rows [] (snd (lookback_cutoff cfg fx))
        with
        | (Ret messages, fx2) => (Ret (sort_by_date messages), fx2)
        | (Raise _, fx2) => (Ret [], fx2)
        end
    end.
Proof.
  intros Hids Hcut. unfold get_messages_for_conversation.
  destruct chat_ids as [|id ids]; [contradiction |].
  destruct (lookback_cutoff cfg fx) as [[c|e] fx1]; simpl in Hcut;
    [| discriminate].
  injection Hcut as ->. reflexivity.
Qed.

Lemma get_messages_raises connection chat_ids fx e :
  fst (get_messages_for_conversation pyobjc cfg connection chat_ids fx)
  = Raise e
  <-> connection <> None /\ chat_ids <> []
      /\ fst (lookback_cutoff cfg fx) = Raise e.
Proof.
  unfold get_messages_for_conversation.
  destruct connection as [conn|];
    [| split; [discriminate | intros [H _]; contradiction]].
  destruct chat_ids as [|id ids];
    [split; [discriminate | intros (_ & H & _); contradiction] |].
  destruct (lookback_cutoff cfg fx) as [[c|e0] fx1]; cbn [fst].
  - split; [| intros (_ & _ & H); discriminate].
    destruct (messages_of_chats conn (id :: ids) c) as [rows|e1];
      [| discriminate].
    destruct (collect_messages pyobjc rows [] fx1) as [[ms|e1] fx2];
      discriminate.
  - split.
    + intros [= ->]. repeat split; discriminate.
    + intros (_ & _ & [= ->]). reflexivity.
Qed.

Lemma get_messages_cases connection chat_ids fx messages :
  fst (get_messages_for_conversation pyobjc cfg connection chat_ids fx)
  = Ret messages ->
  messages = []
  \/ exists rows collected fx1 fx2,
       collect_messages pyobjc rows [] fx1 = (Ret collected, fx2)
       /\ messages = sort_by_date collected.
Proof.
  unfold get_messages_for_conversation.
  destruct connection as [conn|]; [| intros [= <-]; left; reflexivity].
  destruct chat_ids as [|id ids]; [intros [= <-]; left; reflexivity |].
  destruct (lookback_cutoff cfg fx) as [[c|e0] fx1]; [| discriminate].
  destruct (messages_of_chats conn (id :: ids) c) as [rows|e1];
    [| intros [= <-]; left; reflexivity].
  destruct (collect_messages pyobjc rows [] fx1) as [[ms|e1] fx2] eqn:Hc;
    intros [= <-]; [| left; reflexivity].
  right. exists rows, ms, fx1, fx2. auto.
Qed.

Lemma collect_messages_not_junk (rows : list Row) :
  forall messages fx collected fx',
    Forall (fun m => is_junk_message (Some (m_text m)) = false) messages ->
    collect_messages pyobjc rows messages fx = (Ret collected, fx') ->
    Forall (fun m => is_junk_message (Some (m_text m)) = false) collected.
Proof.
  induction rows as [|row rows IH]; intros messages fx collected fx' Hall;
    cbn [collect_messages].
  - intros [= <- _]. exact Hall.
  - destruct (extract_message_text pyobjc (r_text row) (r_attributedBody row))
      as [[|c t]|]; try (apply IH; exact Hall).
    destruct (negb _) eqn:Hjunk; [| apply IH; exact Hall].
    destruct (convert_messages_timestamp (r_date row) fx) as [[d|e] fx1];
      [| discriminate].
    apply IH. apply Forall_app. split; [exact Hall |].
    constructor; [| constructor]. simpl. apply negb_true_iff, Hjunk.
Qed.

Lemma get_messages_not_junk connection chat_ids fx messages :
  fst (get_messages_for_conversation pyobjc cfg connection chat_ids fx)
  = Ret messages ->
  Forall (fun m => is_junk_message (Some (m_text m)) = false) messages.
Proof.
  intros Hres.
  destruct (get_messages_cases connection chat_ids fx Hres)
    as [-> | (rows & collected & c1 & c2 & Hc & ->)]; [constructor |].
  apply Forall_forall. intros m Hin.
  apply (Permutation_in _ (Permutation_sym (sort_by_date_perm collected))) in Hin.
  pose proof (@collect_messages_not_junk rows [] c1 collected c2
                (Forall_nil _) Hc) as Hall.
  rewrite Forall_forall in Hall. apply Hall, Hin.
Qed.

End Merge.

(** C3. Whatever the connection, the thread ids, the rows the store returns
    and their order, the clock and the configuration, a list returned by
    [get_messages_for_conversation] is ascending by date.  Without a
    connection or without thread ids the result is the empty list.  The
    function raises exactly when, with a connection and thread ids, the
    computation of the lookback cutoff raises.  When the cutoff is computed
    and the store answers the query made with that cutoff, the result is
    the empty list if no returned row passes extraction and the junk
    filter; and if no conversion raises an unhandled exception, it is the
    sort by date of one message per row that passes them, each built from
    its row.  When the store raises on that query, the result is the empty
    list. *)
Theorem merge_is_sorted {U : UnicodeData} {P : Platform}
    (pyobjc : option Foundation) (cfg : Config)
    (connection : option Connection) (chat_ids : list Z) (fx : Effects) :
  let result :=
    fst (get_messages_for_conversation pyobjc cfg connection chat_ids fx) in
  (forall messages, result = Ret messages -> StronglySorted date_le messages)
  /\ (connection = None \/ chat_ids = [] -> result = Ret [])
  /\ (forall e,
        result = Raise e
        <-> connection <> None /\ chat_ids <> []
            /\ fst (lookback_cutoff cfg fx) = Raise e)
  /\ (forall conn cutoff rows,
        connection = Some conn -> chat_ids <> [] ->
        fst (lookback_cutoff cfg fx) = Ret cutoff ->
        messages_of_chats conn chat_ids cutoff = Ret rows ->
        (Forall (fun row => survives pyobjc row = false) rows ->
         result = Ret [])
        /\ (Forall (fun r => conversion_handled (r_date r)) rows ->
            exists collected,
              Forall2 (message_of_row pyobjc)
                      (filter (survives pyobjc) rows) collected
              /\ result = Ret (sort_by_date collected)
              /\ Permutation collected (sort_by_date collected)
              /\ StronglySorted date_le (sort_by_date collected)))
  /\ (forall conn cutoff e,
        connection = Some conn -> chat_ids <> [] ->
        fst (lookback_cutoff cfg fx) = Ret cutoff ->
        messages_of_chats conn chat_ids cutoff = Raise e ->
        result = Ret []).
Proof.
  intros result. subst result. split; [| split; [| split; [| split]]].
  - intros messages Hres.
    destruct (get_messages_cases pyobjc cfg connection chat_ids fx Hres)
      as [-> | (rows & collected & c1 & c2 & _ & ->)];
      [constructor | apply sort_by_date_sorted].
  - intros [-> | ->]; [reflexivity |]. destruct connection; reflexivity.
  - intros e. apply get_messages_raises.
  - intros conn cutoff rows -> Hids Hcut Hq.
    rewrite (get_messages_with_cutoff pyobjc cfg conn fx Hids Hcut), Hq.
    split.
    + intros Hnone. rewrite (collect_messages_none pyobjc Hnone). reflexivity.
    + intros Hall.
      destruct (collect_messages_rows pyobjc Hall []
                  (snd (lookback_cutoff cfg fx))) as (extra & Hc & Hrows).
      rewrite Hc. exists extra. split; [exact Hrows |].
      split; [reflexivity |].
      split; [apply sort_by_date_perm | apply sort_by_date_sorted].
  - intros conn cutoff e -> Hids Hcut Hq.
    rewrite (get_messages_with_cutoff pyobjc cfg conn fx Hids Hcut), Hq.
    reflexivity.
Qed.

(* ------------------------------------------------------------------ *)
(** ** Timestamps that cannot be converted *)

(** C10, as stated, fails: the conversion of the timestamp 10^21 raises
    [ValueError], and the handler does not re-date the message silently:
    it logs a warning that names the timestamp, in
    [convert_messages_timestamp] and so in every run of
    [get_messages_for_conversation] over a row that carries it. *)
Lemma corrupt_timestamp_is_reported :
  from_messages_epoch (P := exact_platform) corrupt_timestamp
  = Raise ValueError
  /\ invalid_timestamp_warnings
       (snd (convert_messages_timestamp (P := exact_platform)
               corrupt_timestamp fresh_run))
     = [corrupt_timestamp]
  /\ ~ unreported fresh_run
         (snd (convert_messages_timestamp (P := exact_platform)
                 corrupt_timestamp fresh_run))
  /\ ~ unreported fresh_run
         (snd (get_messages_for_conversation (U := latin1)
                 (P := exact_platform) None config (Some store_two_threads)
                 [1; 2]%Z fresh_run)).
Proof.
  split; [vm_compute; reflexivity |].
  split; [vm_compute; reflexivity |].
  split; intros H; vm_compute in H; discriminate.
Qed.

(** C10, amended. When the conversion of a timestamp raises [OSError] or
    [ValueError], [convert_messages_timestamp] returns normally: it logs a
    warning that names the timestamp and returns the reading of the wall
    clock.  A row carrying such a timestamp whose text passes the filters
    is not dropped: when the cutoff is computed, the store answers the query
    made with it and no conversion raises an unhandled exception, its
    message is in the result with the date of the clock reading made for
    it, at the place that date has in the sorted list, every message before
    it dated no later and every message after it no earlier; and the
    warning for it is in the log. *)
Theorem corrupt_timestamp_is_redated {U : UnicodeData} {P : Platform}
    (pyobjc : option Foundation) (cfg : Config)
    (timestamp : Z) (fx : Effects) (e : exn) :
  from_messages_epoch timestamp = Raise e ->
  e = OSError \/ e = ValueError ->
  convert_messages_timestamp timestamp fx
  = (Ret (datetime_now (clock_reads fx)),
     {| clock_reads := S (clock_reads fx);
        invalid_timestamp_warnings :=
          invalid_timestamp_warnings fx ++ [timestamp] |})
  /\ (forall conn chat_ids cutoff before row after c t,
        chat_ids <> [] ->
        fst (lookback_cutoff cfg fx) = Ret cutoff ->
        messages_of_chats conn chat_ids cutoff = Ret (before ++ row :: after) ->
        Forall (fun r => conversion_handled (r_date r))
               (before ++ row :: after) ->
        r_date row = timestamp ->
        extract_message_text pyobjc (r_text row) (r_attributedBody row)
        = Some (c :: t) ->
        is_junk_message (Some (c :: t)) = false ->
        let fx1 := snd (lookback_cutoff cfg fx) in
        let k := (clock_reads fx1
                  + length (filter (redated pyobjc) before))%nat in
        exists earlier m later,
          get_messages_for_conversation pyobjc cfg (Some conn) chat_ids fx
          = (Ret (earlier ++ m :: later),
             after_rows pyobjc (before ++ row :: after) fx1)
          /\ m_message_id m = r_message_id row
          /\ m_text m = c :: t
          /\ m_date m = datetime_now k
          /\ Forall (fun x => (m_date x <= datetime_now k)%Z) earlier
          /\ Forall (fun x => (datetime_now k <= m_date x)%Z) later
          /\ In timestamp
                (invalid_timestamp_warnings
                   (after_rows pyobjc (before ++ row :: after) fx1))).
Proof.
  intros Hraise He. split.
  - unfold convert_messages_timestamp. rewrite Hraise.
    destruct He as [-> | ->]; reflexivity.
  - intros conn chat_ids cutoff before row after c t Hids Hcut Hq Hall Hdate
      Hext Hjunk fx1 k.
    subst timestamp.
    assert (Hred : redated pyobjc row = true).
    { unfold redated, survives. rewrite Hext, Hjunk, Hraise.
      destruct He as [-> | ->]; reflexivity. }
    pose proof Hall as Hall'. apply Forall_app in Hall' as [Hbefore Hrest].
    pose proof (Forall_inv Hrest) as Hrow.
    pose proof (Forall_inv_tail Hrest) as Hafter.
    destruct (collect_messages_rows pyobjc Hbefore [] fx1)
      as (ms1 & Hc1 & _).
    simpl in Hc1.
    set (m := {| m_message_id := r_message_id row;
                 m_text := c :: t;
                 m_date := datetime_now k;
                 m_is_from_me := negb (r_is_from_me row =? 0)%Z;
                 m_sender_id := r_handle_id row;
                 m_phone_number := r_phone_number row |}).
    destruct (collect_messages_rows pyobjc Hafter (ms1 ++ [m])
                (tick (warn_invalid_timestamp (r_date row)
                         (after_rows pyobjc before fx1))))
      as (ms2 & Hc2 & _).
    assert (Hcollect :
              collect_messages pyobjc (before ++ row :: after) [] fx1
              = (Ret ((ms1 ++ [m]) ++ ms2),
                 after_rows pyobjc (before ++ row :: after) fx1)).
    { rewrite collect_messages_app, Hc1. cbn [collect_messages].
      rewrite Hext, Hjunk. cbn [negb].
      rewrite convert_handled by exact Hrow. rewrite Hraise.
      rewrite after_rows_app, (@after_rows_redated U P pyobjc row after _ Hred).
      exact Hc2. }
    assert (Hin : In m (sort_by_date ((ms1 ++ [m]) ++ ms2))).
    { eapply Permutation_in; [apply sort_by_date_perm |].
      apply in_or_app. left. apply in_or_app. right. left. reflexivity. }
    apply in_split in Hin as (earlier & later & Hsplit).
    pose proof (sort_by_date_sorted ((ms1 ++ [m]) ++ ms2)) as Hsorted.
    rewrite Hsplit in Hsorted.
    apply strongly_sorted_split in Hsorted as [Hearlier Hlater].
    exists earlier, m, later.
    rewrite (get_messages_with_cutoff pyobjc cfg conn fx Hids Hcut), Hq.
    fold fx1. rewrite Hcollect, Hsplit.
    repeat split; try reflexivity; try assumption.
    unfold after_rows. cbn [invalid_timestamp_warnings].
    apply in_or_app. right. apply in_map.
    apply filter_In. split; [| exact Hred].
    apply in_or_app. right. left. reflexivity.
Qed.

(* ------------------------------------------------------------------ *)
(** ** The order on [str] *)

Lemma str_ltb_trichotomy (a : str) :
  forall b, str_ltb a b = true \/ a = b \/ str_ltb b a = true.
Proof.
  induction a as [|x a IH]; intros [|y b]; simpl; auto.
  destruct (N.ltb_spec x y) as [Hxy | Hxy]; simpl; auto.
  destruct (N.ltb_spec y x) as [Hyx | Hyx]; simpl; auto.
  assert (x = y) by lia. subst y. rewrite N.eqb_refl. simpl.
  destruct (IH b) as [H | [H | H]]; auto.
  right; left; congruence.
Qed.

Lemma str_ltb_asym (a : str) :
  forall b, str_ltb a b = true -> str_ltb b a = false.
Proof.
  induction a as [|x a IH]; intros [|y b]; simpl; auto; try discriminate.
  intros H. apply orb_true_iff in H as [H | H].
  - apply N.ltb_lt in H.
    destruct (N.ltb_spec y x); [lia |].
    destruct (N.eqb_spec y x); [lia | reflexivity].
  - apply andb_true_iff in H as [He H]. apply N.eqb_eq in He. subst y.
    rewrite N.ltb_irrefl, N.eqb_refl. simpl. apply IH, H.
Qed.

Lemma str_ltb_trans (a : str) :
  forall b c, str_ltb a b = true -> str_ltb b c = true -> str_ltb a c = true.
Proof.
  induction a as [|x a IH]; intros [|y b] [|z c]; simpl; auto; try discriminate.
  intros H1 H2.
  apply orb_true_iff in H1. apply orb_true_iff in H2. apply orb_true_iff.
  destruct H1 as [H1 | H1], H2 as [H2 | H2];
    rewrite ?andb_true_iff, ?N.ltb_lt, ?N.eqb_eq in *.
  - left; lia.
  - left; destruct H2; lia.
  - left; destruct H1; lia.
  - destruct H1 as [-> H1], H2 as [-> H2]. right. split; [reflexivity |].
    eapply IH; eauto.
Qed.

Lemma str_le_trans (a b c : str) :
  le_of str_ltb a b -> le_of str_ltb b c -> le_of str_ltb a c.
Proof.
  unfold le_of. intros Hab Hbc.
  destruct (str_ltb c a) eqn:Hca; [| reflexivity].
  destruct (str_ltb_trichotomy a b) as [H | [H | H]].
  - rewrite (str_ltb_trans _ _ _ Hca H) in Hbc. discriminate.
  - subst b. congruence.
  - congruence.
Qed.

Lemma str_le_antisym (a b : str) :
  le_of str_ltb a b -> le_of str_ltb b a -> a = b.
Proof.
  unfold le_of. intros Hab Hba.
  destruct (str_ltb_trichotomy a b) as [H | [H | H]]; congruence.
Qed.

Lemma sorted_perm_eq (l1 l2 : list str) :
  Permutation l1 l2 -> sorted l1 = sorted l2.
Proof.
  apply sort_by_perm_eq.
  - exact str_ltb_asym.
  - exact str_le_trans.
  - exact str_le_antisym.
Qed.

(* ------------------------------------------------------------------ *)
(** ** [split] and [join] *)

Lemma split_not_nil (sep : codepoint) (s : str) : split sep s <> [].
Proof.
  destruct s as [|c s]; simpl; [discriminate |].
  destruct (c =? sep)%N; [discriminate |].
  destruct (split sep s); discriminate.
Qed.

Lemma split_app (sep : codepoint) (a b : str) :
  split sep (a ++ sep :: b) = split sep a ++ split sep b.
Proof.
  induction a as [|c a IH]; simpl.
  - rewrite N.eqb_refl. reflexivity.
  - destruct (c =? sep)%N.
    + rewrite IH. reflexivity.
    + rewrite IH. pose proof (split_not_nil sep a) as Hne.
      destruct (split sep a); [contradiction | reflexivity].
Qed.

Lemma split_join (hs : list str) :
  hs <> [] ->
  split comma (join (lit ",") hs) = flat_map (split comma) hs.
Proof.
  induction hs as [|h hs IH]; intros Hne; [contradiction |].
  destruct hs as [|h' hs].
  - simpl. rewrite app_nil_r. reflexivity.
  - change (join (lit ",") (h :: h' :: hs))
      with (h ++ comma :: join (lit ",") (h' :: hs)).
    rewrite split_app, IH by discriminate. reflexivity.
Qed.

Lemma participant_key_perm (hs hs' : list str) :
  Permutation hs hs' ->
  participant_key (join (lit ",") hs) = participant_key (join (lit ",") hs').
Proof.
  intros Hp. unfold participant_key.
  destruct hs as [|h hs].
  - apply Permutation_nil in Hp. subst. reflexivity.
  - destruct hs' as [|h' hs'].
    + apply Permutation_sym, Permutation_nil in Hp. discriminate.
    + rewrite !split_join by discriminate.
      apply sorted_perm_eq, Permutation_flat_map, Hp.
Qed.

(* ------------------------------------------------------------------ *)
(** ** Grouping chats by participants *)

Lemma key_eqb_eq (a b : ParticipantKey) : key_eqb a b = true <-> a = b.
Proof.
  unfold key_eqb.
  destruct (list_eq_dec (list_eq_dec N.eq_dec) a b); split; congruence.
Qed.

Lemma participant_key_sorted (p : str) :
  StronglySorted (le_of str_ltb) (participant_key p)
  /\ Permutation (split comma p) (participant_key p).
Proof.
  split.
  - apply sort_by_strongly_sorted; [exact str_ltb_asym | exact str_le_trans].
  - apply sort_by_perm.
Qed.

Lemma participant_key_length (p : str) : (1 <= length (participant_key p))%nat.
Proof.
  destruct (participant_key_sorted p) as [_ Hp].
  rewrite <- (Permutation_length Hp).
  pose proof (split_not_nil comma p). destruct (split comma p); simpl; [contradiction | lia].
Qed.

Section Buckets.

Variables (key : ParticipantKey) (chat_id : Z).

Lemma append_chat_new (d : Conversations) :
  exists ids, In (key, ids) (append_chat key chat_id d) /\ In chat_id ids.
Proof.
  induction d as [|[k v] d IH]; simpl.
  - exists [chat_id]. simpl; auto.
  - destruct (key_eqb k key) eqn:Hk.
    + apply key_eqb_eq in Hk. subst k. exists (v ++ [chat_id]). split.
      * left; reflexivity.
      * apply in_or_app; right; left; reflexivity.
    + destruct IH as (ids & Hin & Hc). exists ids. split; [right |]; assumption.
Qed.

Lemma append_chat_mono (d : Conversations) k ids :
  In (k, ids) d ->
  exists ids', In (k, ids') (append_chat key chat_id d) /\ incl ids ids'.
Proof.
  induction d as [|[k0 v] d IH]; simpl; [intros [] |].
  intros [Heq | Hin].
  - injection Heq as -> ->. destruct (key_eqb k key).
    + exists (ids ++ [chat_id]). split; [left; reflexivity | apply incl_appl, incl_refl].
    + exists ids. split; [left; reflexivity | apply incl_refl].
  - destruct (key_eqb k0 key).
    + exists ids. split; [right; exact Hin | apply incl_refl].
    + destruct (IH Hin) as (ids' & Hin' & Hincl).
      exists ids'. split; [right |]; assumption.
Qed.

Lemma append_chat_keys (d : Conversations) k :
  In k (map fst (append_chat key chat_id d)) <-> k = key \/ In k (map fst d).
Proof.
  induction d as [|[k0 v] d IH]; simpl.
  - intuition.
  - destruct (key_eqb k0 key) eqn:Hk; simpl.
    + apply key_eqb_eq in Hk. subst k0. intuition.
    + rewrite IH. intuition.
Qed.

Lemma append_chat_nodup (d : Conversations) :
  NoDup (map fst d) -> NoDup (map fst (append_chat key chat_id d)).
Proof.
  induction d as [|[k0 v] d IH]; simpl; intros Hnd.
  - repeat constructor. intros [].
  - destruct (key_eqb k0 key) eqn:Hk; simpl; [exact Hnd |].
    apply NoDup_cons_iff in Hnd as [Hnot Hnd].
    constructor; [| apply IH, Hnd].
    rewrite append_chat_keys. intros [-> | Hin]; [| contradiction].
    assert (key_eqb key key = true) by (apply key_eqb_eq; reflexivity).
    congruence.
Qed.

End Buckets.

Lemma nodup_keys_bucket (d : Conversations) k ids1 ids2 :
  NoDup (map fst d) -> In (k, ids1) d -> In (k, ids2) d -> ids1 = ids2.
Proof.
  induction d as [|[k0 v] d IH]; simpl; [intros _ [] |].
  intros Hnd H1 H2. apply NoDup_cons_iff in Hnd as [Hnot Hnd].
  destruct H1 as [H1 | H1], H2 as [H2 | H2].
  - congruence.
  - injection H1 as -> ->. exfalso. apply Hnot.
    change k with (fst (k, ids2)). apply in_map, H2.
  - injection H2 as -> ->. exfalso. apply Hnot.
    change k with (fst (k, ids1)). apply in_map, H1.
  - eapply IH; eauto.
Qed.

Lemma group_rows_spec (rows : list (Z * option str)) :
  forall d,
    NoDup (map fst d) ->
    let r := fold_left add_row rows d in
    NoDup (map fst r)
    /\ (forall k ids, In (k, ids) d ->
          exists ids', In (k, ids') r /\ incl ids ids')
    /\ (forall c p, In (c, Some p) rows -> p <> [] ->
          exists ids, In (participant_key p, ids) r /\ In c ids)
    /\ (forall k, In k (map fst r) ->
          In k (map fst d)
          \/ exists c p, In (c, Some p) rows /\ p <> [] /\ k = participant_key p).
Proof.
  induction rows as [|[c0 p0] rows IH]; intros d Hnd; simpl.
  - repeat split; auto.
    + intros k ids Hin. exists ids. split; [exact Hin | apply incl_refl].
    + intros c p [].
  - set (d' := add_row d (c0, p0)).
    assert (Hnd' : NoDup (map fst d')).
    { subst d'. simpl. destruct p0 as [[|x p0]|]; try exact Hnd.
      apply append_chat_nodup, Hnd. }
    destruct (IH d' Hnd') as (Hn & Hmono & Hrows & Hkeys).
    assert (Hstep : forall k ids, In (k, ids) d ->
               exists ids', In (k, ids') d' /\ incl ids ids').
    { intros k ids Hin. subst d'. simpl.
      destruct p0 as [[|x p0]|];
        try (exists ids; split; [exact Hin | apply incl_refl]).
      apply append_chat_mono, Hin. }
    split; [exact Hn |]. split; [| split].
    + intros k ids Hin. destruct (Hstep _ _ Hin) as (ids1 & Hin1 & Hi1).
      destruct (Hmono _ _ Hin1) as (ids2 & Hin2 & Hi2).
      exists ids2. split; [exact Hin2 | eapply incl_tran; eauto].
    + intros c p [Heq | Hin] Hp.
      * injection Heq as -> ->. destruct p as [|x p]; [contradiction |].
        destruct (append_chat_new (participant_key (x :: p)) c d)
          as (ids & Hin & Hc).
        destruct (Hmono _ _ Hin) as (ids' & Hin' & Hincl).
        exists ids'. split; [exact Hin' | apply Hincl, Hc].
      * apply Hrows; assumption.
    + intros k Hk. destruct (Hkeys k Hk) as [Hd' | (c & p & Hin & Hp & Hkp)].
      * subst d'. simpl in Hd'. destruct p0 as [[|x p0]|]; auto.
        apply append_chat_keys in Hd' as [-> | Hd']; auto.
        right. exists c0, (x :: p0). split; [left; reflexivity |].
        split; [discriminate | reflexivity].
      * right. exists c, p. auto.
Qed.

(** C6, the code at the failing input.  The comments of
    [get_all_conversations] promise a grouping by the set of participants
    under a unique key, but a handle listed twice stays twice in the key:
    of three chats with the one participant A, the chat whose participants
    are listed as A, A does not join the other two in one bucket, it gets
    a bucket of its own under the key (A, A); and since that key has two
    entries, [process_all_conversations] takes this one-on-one chat for a
    group chat and drops it when [PROCESS_GROUP_CHATS] is false. *)
Lemma participant_key_keeps_duplicates :
  participant_key (join (lit ",") [handle_A; handle_A])
  = [handle_A; handle_A]
  /\ participant_key (join (lit ",") [handle_A; handle_A])
     <> participant_key (join (lit ",") [handle_A])
  /\ get_all_conversations (Some store_same_participant)
     = [([handle_A], [1; 3]%Z); ([handle_A; handle_A], [2]%Z)]
  /\ select_conversations config
       (get_all_conversations (Some store_same_participant))
     = [([handle_A], [1; 3]%Z)].
Proof.
  split; [vm_compute; reflexivity |].
  split; [vm_compute; discriminate |].
  split; vm_compute; reflexivity.
Qed.

(** X26. The part of the grouping that does not depend on duplicates: the
    participant key is ascending, a permutation of the listed handles, and
    the same for every order in which the handles are listed; two chats
    whose handle lists are permutations of each other are appended to one
    and the same bucket, whatever the rows around them and their order, and
    no key occurs twice in the result. *)
Theorem participant_key_order_independent :
  (forall hs hs', Permutation hs hs' ->
     participant_key (join (lit ",") hs) = participant_key (join (lit ",") hs'))
  /\ (forall p,
        StronglySorted (fun a b => str_ltb b a = false) (participant_key p)
        /\ Permutation (split comma p) (participant_key p))
  /\ (forall conn rows c1 c2 hs1 hs2,
        chats_with_participants conn = Ret rows ->
        In (participants_row c1 hs1) rows ->
        In (participants_row c2 hs2) rows ->
        Permutation hs1 hs2 ->
        join (lit ",") hs1 <> [] ->
        NoDup (map fst (get_all_conversations (Some conn)))
        /\ exists ids,
             In (participant_key (join (lit ",") hs1), ids)
                (get_all_conversations (Some conn))
             /\ In c1 ids /\ In c2 ids).
Proof.
  split; [exact participant_key_perm |].
  split; [exact participant_key_sorted |].
  intros conn rows c1 c2 hs1 hs2 Hq H1 H2 Hp Hne.
  unfold get_all_conversations. rewrite Hq.
  destruct (@group_rows_spec rows [] (NoDup_nil _))
    as (Hnd & _ & Hrows & _).
  split; [exact Hnd |].
  assert (Hne2 : join (lit ",") hs2 <> []).
  { intros Hnil. apply Hne.
    destruct hs1 as [|h1 hs1].
    - reflexivity.
    - destruct hs2 as [|h2 hs2].
      + apply Permutation_sym, Permutation_nil in Hp. discriminate.
      + pose proof (split_join (hs := h2 :: hs2)) as Hs2.
        pose proof (split_join (hs := h1 :: hs1)) as Hs1.
        rewrite Hnil in Hs2. specialize (Hs2 ltac:(discriminate)).
        specialize (Hs1 ltac:(discriminate)).
        assert (Hlen : length (flat_map (split comma) (h1 :: hs1)) = 1%nat).
        { rewrite (Permutation_length (Permutation_flat_map (split comma) Hp)).
          rewrite <- Hs2. reflexivity. }
        (* a single handle without a comma and without a character *)
        destruct hs1 as [|h1' hs1].
        * destruct hs2 as [|h2' hs2].
          -- apply Permutation_length_1 in Hp. subst h2. exact Hnil.
          -- apply Permutation_length in Hp. discriminate.
        * exfalso. simpl in Hlen. rewrite !length_app in Hlen.
          pose proof (split_not_nil comma h1).
          pose proof (split_not_nil comma h1').
          destruct (split comma h1); [contradiction |].
          destruct (split comma h1'); [contradiction |].
          simpl in Hlen. lia. }
  destruct (Hrows c1 _ H1 Hne) as (ids1 & Hin1 & Hc1).
  destruct (Hrows c2 _ H2 Hne2) as (ids2 & Hin2 & Hc2).
  rewrite <- (participant_key_perm Hp) in Hin2.
  rewrite (@nodup_keys_bucket _ _ _ _ Hnd Hin2 Hin1) in Hc2.
  exists ids1. auto.
Qed.

(** C7, as stated, fails: with [PROCESS_GROUP_CHATS] false in the
    configuration, [get_all_conversations] still returns the bucket of the
    group chat, whose key has two handles. *)
Lemma grouper_returns_group_chats :
  PROCESS_GROUP_CHATS config = false
  /\ get_all_conversations (Some store_with_group)
     = [([handle_A], [1]%Z); ([handle_A; handle_B], [2]%Z)]
  /\ ~ Forall (fun kv => length (fst kv) = 1%nat)
              (get_all_conversations (Some store_with_group)).
Proof.
  split; [reflexivity |]. split; [vm_compute; reflexivity |].
  intros H. apply Forall_inv_tail, Forall_inv in H. vm_compute in H. discriminate.
Qed.

Lemma conversation_keys_nonempty (connection : option Connection) kv :
  In kv (get_all_conversations connection) -> (1 <= length (fst kv))%nat.
Proof.
  unfold get_all_conversations. destruct connection as [conn|]; [| intros []].
  destruct (chats_with_participants conn) as [rows|e]; [| intros []].
  intros Hin.
  destruct (@group_rows_spec rows [] (NoDup_nil _)) as (_ & _ & _ & Hkeys).
  destruct (Hkeys (fst kv) (in_map fst _ _ Hin)) as [[] | (c & p & _ & _ & ->)].
  apply participant_key_length.
Qed.

(** C7, amended. [get_all_conversations] does not read the flag and returns
    every bucket; it is [process_all_conversations] that, when
    [PROCESS_GROUP_CHATS] is false, keeps of the mapping returned exactly
    the buckets whose key has one handle, in order, dropping those with more
    than one, and processes only those. *)
Theorem one_on_one_selection {U : UnicodeData} {P : Platform}
    (pyobjc : option Foundation) (cfg : Config) (conn : Connection)
    (fx : Effects) :
  PROCESS_GROUP_CHATS cfg = false ->
  let every := get_all_conversations (Some conn) in
  let kept := select_conversations cfg every in
  kept = filter (fun kv => (length (fst kv) =? 1)%nat) every
  /\ Forall (fun kv => length (fst kv) = 1%nat) kept
  /\ (forall kv, In kv every ->
        (In kv kept <-> ~ (1 < length (fst kv))%nat))
  /\ process_all_conversations pyobjc cfg (Some conn) fx
     = match lookback_notice cfg fx with
       | (Ret _, fx1) => process_conversations pyobjc cfg conn kept [] fx1
       | (Raise e, fx1) => (Raise e, fx1)
       end.
Proof.
  intros Hflag every kept.
  assert (Hkept : kept = filter (fun kv => (length (fst kv) =? 1)%nat) every).
  { subst kept. unfold select_conversations. rewrite Hflag. simpl.
    apply filter_ext. intros [p cids]. reflexivity. }
  split; [exact Hkept |]. split; [| split].
  - rewrite Hkept. apply Forall_forall. intros kv Hin.
    apply filter_In in Hin as [_ Hlen]. apply Nat.eqb_eq, Hlen.
  - intros kv Hin. rewrite Hkept, filter_In, Nat.eqb_eq.
    pose proof (conversation_keys_nonempty _ _ Hin). split.
    + intros [_ ?]. lia.
    + intros ?. split; [exact Hin | lia].
  - reflexivity.
Qed.

(* ------------------------------------------------------------------ *)
(** ** Text extraction *)

Lemma filter_id_forallb {A} (f : A -> bool) (l : list A) :
  filter f l = l <-> forallb f l = true.
Proof.
  induction l as [|x l IH]; simpl; [tauto |].
  destruct (f x) eqn:Hx; simpl.
  - rewrite <- IH. split; [intros [= ?] | intros ->]; auto.
  - split; [| discriminate]. intros Heq.
    assert (Hlen : length (filter f l) = S (length l)) by (rewrite Heq; reflexivity).
    pose proof (filter_length_le f l). lia.
Qed.

Lemma has_text_present (text : option str) :
  has_text text = true <-> text_present text.
Proof.
  unfold has_text, text_present. destruct text as [[|c t]|].
  - split; [discriminate | intros (t & [= <-] & H); contradiction].
  - destruct (strip (c :: t)) eqn:Hs; split; try discriminate.
    + intros (t' & [= <-] & H). rewrite Hs in H. contradiction.
    + intros _. exists (c :: t). rewrite Hs. split; [reflexivity | discriminate].
    + reflexivity.
  - split; [discriminate | intros (t & [=] & _)].
Qed.

(** C5, as stated, fails: on the two-byte blob [hi] the path taken without
    the libraries returns the text [hi], while the raw salvage step of the
    full chain, and the salvage decode as the specification words it,
    reject it for having no more than 2 printable characters. *)
Lemma no_library_path_is_not_salvage :
  decode_attributed_body (U := latin1) None [Byte.x68; Byte.x69]
  = Some (lit "hi")
  /\ attempt (raw_utf8_step (U := latin1) [Byte.x68; Byte.x69]) = None
  /\ raw_salvage_spec (U := latin1) [Byte.x68; Byte.x69] = None.
Proof. vm_compute. repeat split. Qed.

(** C5, amended. Without the libraries, [decode_attributed_body] returns on
    every non-empty blob the UTF-8 decoding with invalid bytes dropped and
    surrounding whitespace trimmed, never [None], with no printable filter
    and no length threshold; it agrees with the raw salvage step of the full
    chain exactly when that trimmed text is printable throughout and longer
    than 2 characters. *)
Theorem no_library_path {U : UnicodeData} (data : bytes) :
  data <> [] ->
  let text := strip (decode_utf8_ignore data) in
  decode_attributed_body None data = Some text
  /\ (decode_attributed_body None data = attempt (raw_utf8_step data)
      <-> forallb isprintable text = true /\ (2 < len text)%Z).
Proof.
  intros Hne text.
  assert (Hd : decode_attributed_body None data = Some text).
  { destruct data; [contradiction | reflexivity]. }
  split; [exact Hd |]. rewrite Hd. unfold raw_utf8_step. fold text.
  destruct (len (filter isprintable text) >? 2)%Z eqn:Hlen; simpl.
  - apply Z.gtb_lt in Hlen. rewrite <- filter_id_forallb. split.
    + intros [= Heq]. rewrite <- Heq in Hlen at 1. rewrite <- Heq. auto.
    + intros [Heq _]. rewrite Heq. reflexivity.
  - split; [discriminate |]. intros [Hp Hl].
    apply filter_id_forallb in Hp. rewrite Hp in Hlen.
    rewrite Z.gtb_ltb in Hlen. apply Z.ltb_ge in Hlen. lia.
Qed.

(** C8. When the text field is present and non-empty after trimming,
    [extract_message_text] returns it trimmed whatever the binary field
    holds.  Otherwise the result is an optional text: [None] when there is
    no blob; without the libraries, the trimmed lenient decoding of the
    blob; with the libraries, an exception raised by an archive reader is
    that reader's failure and the chain goes on to the next step; and when
    every step fails the result is [None]. *)
Theorem extraction_is_total {U : UnicodeData} (pyobjc : option Foundation)
    (text : option str) (attributed_body : option bytes) :
  (forall t, text = Some t -> strip t <> [] ->
     extract_message_text pyobjc text attributed_body = Some (strip t))
  /\ (~ text_present text ->
      (attributed_body = None \/ attributed_body = Some [] ->
       extract_message_text pyobjc text attributed_body = None)
      /\ (forall data,
            pyobjc = None -> attributed_body = Some data -> data <> [] ->
            extract_message_text pyobjc text attributed_body
            = Some (strip (decode_utf8_ignore data)))
      /\ (forall F data,
            pyobjc = Some F -> attributed_body = Some data -> data <> [] ->
            (forall e, keyed_unarchive data = Raise e ->
               extract_message_text pyobjc text attributed_body
               = match attempt (legacy_unarchive data) with
                 | Some s => Some s
                 | None => attempt (raw_utf8_step data)
                 end)
            /\ (forall e1 e2,
                  keyed_unarchive data = Raise e1 ->
                  legacy_unarchive data = Raise e2 ->
                  extract_message_text pyobjc text attributed_body
                  = attempt (raw_utf8_step data))
            /\ (attempt (keyed_unarchive data) = None ->
                attempt (legacy_unarchive data) = None ->
                attempt (raw_utf8_step data) = None ->
                extract_message_text pyobjc text attributed_body = None))).
Proof.
  split.
  - intros t -> Hne. unfold extract_message_text.
    assert (Hp : has_text (Some t) = true)
      by (apply has_text_present; exists t; auto).
    rewrite Hp. reflexivity.
  - intros Hnp.
    assert (Hp : has_text text = false).
    { destruct (has_text text) eqn:H; [| reflexivity].
      apply has_text_present in H. contradiction. }
    unfold extract_message_text. rewrite Hp. split; [| split].
    + intros [-> | ->]; reflexivity.
    + intros data -> -> Hdata.
      destruct data as [|b data]; [contradiction | reflexivity].
    + intros F data -> -> Hdata.
      destruct data as [|b data]; [contradiction |]. simpl.
      split; [| split].
      * intros e He. rewrite He. simpl.
        destruct (attempt (legacy_unarchive (b :: data))); [reflexivity |].
        destruct (attempt (raw_utf8_step (b :: data))); reflexivity.
      * intros e1 e2 H1 H2. rewrite H1, H2. simpl.
        destruct (attempt (raw_utf8_step (b :: data))); reflexivity.
      * intros H1 H2 H3. rewrite H1, H2, H3. reflexivity.
Qed.

(* ------------------------------------------------------------------ *)
(** ** The patterns of the junk filter *)

Lemma accepts_word (w : str) (k : bool -> str -> bool) :
  forall at0 s,
    accepts (word w) k at0 s = true
    <-> exists head rest,
          s = head ++ rest /\ ci_eq w head
          /\ k (match w with [] => at0 | _ => false end) rest = true.
Proof.
  induction w as [|c w IH]; intros at0 s; cbn [word accepts].
  - split.
    + intros H. exists [], s. repeat split; [constructor | exact H].
    + intros (head & rest & -> & Hci & Hk). inversion Hci; subst. exact Hk.
  - destruct s as [|x s].
    + split; [discriminate |].
      intros (head & rest & Heq & Hci & _). inversion Hci; subst. discriminate.
    + rewrite andb_true_iff, IH. split.
      * intros (Hc & head & rest & -> & Hci & Hk).
        exists (x :: head), rest. repeat split.
        -- constructor; assumption.
        -- destruct w; exact Hk.
      * intros (head & rest & Heq & Hci & Hk).
        inversion Hci as [|c' x' w' head' Hc Hci']; subst.
        injection Heq as -> ->. split; [exact Hc |].
        exists head', rest. repeat split; [exact Hci' |].
        destruct w; exact Hk.
Qed.

Lemma accepts_alts (rs : list regex) (k : bool -> str -> bool) at0 s :
  forall r,
    accepts (alts r rs) k at0 s = true
    <-> exists r', In r' (r :: rs) /\ accepts r' k at0 s = true.
Proof.
  induction rs as [|r1 rs IH]; intros r; cbn [alts].
  - split.
    + intros H. exists r. split; [left; reflexivity | exact H].
    + intros (r' & [<- | []] & H). exact H.
  - cbn [accepts]. rewrite orb_true_iff, IH. split.
    + intros [H | (r' & Hin & H)].
      * exists r. split; [left; reflexivity | exact H].
      * exists r'. split; [right; exact Hin | exact H].
    + intros (r' & [<- | Hin] & H); [left; exact H |].
      right. exists r'. split; assumption.
Qed.

Lemma accepts_verbs (k : bool -> str -> bool) at0 s :
  accepts verbs k at0 s = true
  <-> exists verb head rest,
        In verb reaction_verbs /\ s = head ++ rest /\ ci_eq verb head
        /\ k false rest = true.
Proof.
  unfold verbs. rewrite accepts_alts.
  change (word (lit "Liked")
          :: [word (lit "Loved"); word (lit "Laughed at");
              word (lit "Disliked"); word (lit "Emphasized");
              word (lit "Questioned")])
    with (map word reaction_verbs).
  split.
  - intros (r & Hin & H). apply in_map_iff in Hin as (verb & <- & Hin).
    apply accepts_word in H as (head & rest & Hs & Hci & Hk).
    exists verb, head, rest. repeat split; try assumption.
    destruct verb; [| exact Hk].
    repeat (destruct Hin as [Hin | Hin]; [discriminate |]). destruct Hin.
  - intros (verb & head & rest & Hin & Hs & Hci & Hk).
    exists (word verb). split; [apply in_map, Hin |].
    apply accepts_word. exists head, rest. repeat split; try assumption.
    destruct verb; [| exact Hk].
    repeat (destruct Hin as [Hin | Hin]; [discriminate |]). destruct Hin.
Qed.

Lemma starts_with_verb_shorthand (text : str) :
  (exists verb head rest,
      In verb reaction_verbs /\ text = head ++ rest /\ ci_eq verb head)
  <-> reaction_shorthand text.
Proof.
  unfold reaction_shorthand. split.
  - intros (verb & head & rest & Hin & -> & Hci).
    exists verb, head, [], rest. auto.
  - intros (verb & head & excerpt & rest & Hin & Hci & _ & ->).
    exists verb, head, (excerpt ++ rest). auto.
Qed.

Lemma tapback_patterns_spec (text : str) :
  existsb (fun pattern => re_match pattern text) tapback_patterns = true
  <-> reaction_shorthand text.
Proof.
  rewrite <- starts_with_verb_shorthand.
  unfold tapback_patterns, re_match. cbn [existsb seq_of accepts andb].
  rewrite orb_false_r, orb_true_iff, !accepts_verbs. split.
  - intros [H | H]; destruct H as (verb & head & rest & Hin & Hs & Hci & _);
      exists verb, head, rest; auto.
  - intros (verb & head & rest & Hin & Hs & Hci).
    left. exists verb, head, rest. auto.
Qed.

Lemma at_eol_spec (s : str) : at_eol s = true <-> s = [] \/ s = [newline].
Proof.
  destruct s as [|x [|y s]]; simpl.
  - intuition.
  - rewrite N.eqb_eq. split.
    + intros ->. right; reflexivity.
    + intros [? | [= ->]]; [discriminate | reflexivity].
  - split; [discriminate | intros [? | ?]; discriminate].
Qed.

Lemma attachment_patterns_spec (text : str) :
  existsb (fun pattern => re_match pattern text) attachment_patterns = true
  <-> media_token_line text.
Proof.
  unfold attachment_patterns, media_token_line.
  rewrite existsb_exists. split.
  - intros (r & Hin & H). apply in_map_iff in Hin as (token & <- & Hin).
    exists token. split; [exact Hin |].
    unfold re_match in H. cbn [seq_of accepts andb] in H.
    apply accepts_word in H as (head & rest & -> & Hci & Hk).
    rewrite andb_true_r in Hk. apply at_eol_spec in Hk as [-> | ->].
    + left. rewrite app_nil_r. exact Hci.
    + right. exists head. auto.
  - intros (token & Hin & H).
    exists (seq_of [Bol; word token; Eol]). split.
    + apply in_map_iff. exists token. auto.
    + unfold re_match. cbn [seq_of accepts andb]. apply accepts_word.
      destruct H as [Hci | (head & -> & Hci)].
      * exists text, []. rewrite app_nil_r.
        split; [reflexivity | split; [exact Hci | destruct token; reflexivity]].
      * exists head, [newline].
        split; [reflexivity | split; [exact Hci | destruct token; reflexivity]].
Qed.

Lemma is_junk_message_spec (text : option str) :
  is_junk_message text = true <-> junk_as_amended text.
Proof.
  unfold junk_as_amended. destruct text as [[|c t]|].
  - simpl. intuition.
  - cbn [is_junk_message]. split.
    + intros H. right; right. exists (c :: t). split; [reflexivity |].
      destruct (existsb _ tapback_patterns) eqn:H1;
        [left; apply tapback_patterns_spec, H1 |].
      destruct (existsb _ attachment_patterns) eqn:H2;
        [right; left; apply attachment_patterns_spec, H2 |].
      destruct (len (strip (c :: t)) <? 2)%Z eqn:H3;
        [right; right; apply Z.ltb_lt, H3 | discriminate].
    + intros [? | [? | (t' & [= <-] & [H | [H | H]])]]; try discriminate.
      * apply tapback_patterns_spec in H. rewrite H. reflexivity.
      * apply attachment_patterns_spec in H. rewrite H.
        destruct (existsb _ tapback_patterns); reflexivity.
      * apply Z.ltb_lt in H. rewrite H.
        repeat match goal with
               | |- context [if ?b then _ else _] => destruct b
               end; reflexivity.
  - simpl. intuition.
Qed.

(* ------------------------------------------------------------------ *)
(** ** What the junk filter keeps out of turns and pairs *)

Lemma starts_with_loved_is_junk (tail : str) :
  is_junk_message (Some (lit "Loved" ++ tail)) = true.
Proof.
  apply is_junk_message_spec. right; right.
  exists (lit "Loved" ++ tail). split; [reflexivity |]. left.
  exists (lit "Loved"), (lit "Loved"), [], tail. repeat split.
  - right; left; reflexivity.
  - repeat constructor.
  - left; reflexivity.
Qed.

Lemma join_not_loved_ok (texts : list str) :
  texts <> [] ->
  Forall (fun x => is_junk_message (Some x) = false) texts ->
  join (lit " ") texts <> loved_ok.
Proof.
  intros Hne Hall Heq.
  destruct texts as [|m0 rest]; [contradiction |].
  apply Forall_inv in Hall.
  assert (Hjunk : forall tail, m0 <> lit "Loved" ++ tail).
  { intros tail ->. rewrite starts_with_loved_is_junk in Hall. discriminate. }
  destruct rest as [|m1 rest].
  - simpl in Heq. apply (Hjunk (lit " " ++ [dquote] ++ lit "ok" ++ [dquote])).
    exact Heq.
  - change (join (lit " ") (m0 :: m1 :: rest))
      with (m0 ++ 32%N :: join (lit " ") (m1 :: rest)) in Heq.
    unfold loved_ok in Heq.
    destruct m0 as [|a0 [|a1 [|a2 [|a3 [|a4 m0]]]]];
      try (simpl in Heq; vm_compute in Hall; discriminate).
    apply (Hjunk m0). vm_compute in Heq |- *.
    injection Heq as -> -> -> -> -> _. reflexivity.
Qed.

Lemma turns_without_junk (messages : list Message) :
  Forall (fun m => is_junk_message (Some (m_text m)) = false) messages ->
  Forall (fun t => ~ In loved_ok (t_messages t) /\ t_text t <> loved_ok)
         (group_messages_into_turns messages).
Proof.
  intros Hall.
  destruct (group_represents messages) as (chunks & Hc & Hf & _).
  subst messages.
  induction Hf as [|chunk t chunks ts Hr _ IH]; [constructor |].
  simpl in Hall. apply Forall_app in Hall as [Hchunk Hrest].
  constructor; [| apply IH, Hrest].
  destruct Hr as (Hne & _ & Hm & Ht & _).
  assert (Htexts : Forall (fun x => is_junk_message (Some x) = false)
                          (map m_text chunk)).
  { apply Forall_map. exact Hchunk. }
  split.
  - rewrite Hm. intros Hin. rewrite Forall_forall in Htexts.
    apply Htexts in Hin.
    change loved_ok
      with (lit "Loved" ++ lit " " ++ [dquote] ++ lit "ok" ++ [dquote]) in Hin.
    rewrite starts_with_loved_is_junk in Hin. discriminate.
  - rewrite Ht. apply join_not_loved_ok; [| exact Htexts].
    destruct chunk; [contradiction | discriminate].
Qed.

Lemma pairs_from_turns (turns : list Turn) (examples : list (str * str)) :
  create_training_examples turns = Ret examples ->
  Forall (fun ex =>
            (fst ex = CONVERSATION_STARTER
             \/ exists t, In t turns /\ fst ex = t_text t)
            /\ exists t, In t turns /\ snd ex = t_text t) examples.
Proof.
  intros Hrun.
  destruct (@examples_loop_spec turns turns [] [] eq_refl) as (E & Hloop & Hp & _).
  unfold create_training_examples in Hrun. simpl in Hloop.
  rewrite Hloop in Hrun. injection Hrun as <-. clear Hloop.
  induction Hp as [|i ex idxs E Hpair _ IH]; [constructor |].
  constructor; [| exact IH].
  destruct Hpair as (t & Hnth & _ & Hout & Hinp). split.
  - destruct i as [|j]; [left; exact Hinp |].
    destruct Hinp as (q & Hq & Hinp). right. exists q.
    split; [eapply nth_error_In; exact Hq | exact Hinp].
  - exists t. split; [eapply nth_error_In; exact Hnth | exact Hout].
Qed.

(** C4, as stated, fails: the placeholder [[IMAGE]] followed by a newline is
    classified as junk, although it is not empty, does not begin with a
    reaction verb, is not exactly a placeholder and has 7 characters once
    trimmed. *)
Lemma placeholder_line_is_junk :
  is_junk_message (Some (lit "[IMAGE]" ++ [newline])) = true
  /\ ~ junk_as_specified (Some (lit "[IMAGE]" ++ [newline])).
Proof.
  split; [vm_compute; reflexivity |].
  intros [H | [H | (t & Ht & [H | [H | H]])]]; try discriminate;
    injection Ht as <-.
  - destruct H as (verb & head & excerpt & rest & Hin & Hci & _ & Heq).
    repeat (destruct Hin as [<- | Hin];
            [inversion Hci as [|c x w head' Hc Hci']; subst;
             injection Heq as <- _; vm_compute in Hc; discriminate |]).
    destruct Hin.
  - destruct H as (token & Hin & Hci). apply Forall2_length in Hci.
    repeat (destruct Hin as [<- | Hin]; [discriminate |]). destruct Hin.
  - vm_compute in H. discriminate.
Qed.

(** C4, amended. [is_junk_message] returns true exactly when the text is
    absent or empty, or begins (case-insensitively) with one of the six
    reaction verbs, optionally followed by a quoted excerpt, or is one of the
    five media placeholders (case-insensitively) alone or followed by one
    final newline, or has fewer than 2 characters once trimmed.  The text
    [Loved "ok"] is junk; no message returned by
    [get_messages_for_conversation] is junk, so that text is no message of
    any turn, no turn's text, and neither side of any training pair. *)
Theorem junk_classification {U : UnicodeData} {P : Platform}
    (text : option str) :
  (is_junk_message text = true <-> junk_as_amended text)
  /\ is_junk_message (Some loved_ok) = true
  /\ (forall pyobjc cfg connection chat_ids fx messages,
        fst (get_messages_for_conversation pyobjc cfg connection chat_ids fx)
        = Ret messages ->
        let turns := group_messages_into_turns messages in
        Forall (fun m => is_junk_message (Some (m_text m)) = false) messages
        /\ Forall (fun t => ~ In loved_ok (t_messages t)
                            /\ t_text t <> loved_ok) turns
        /\ (forall examples,
              create_training_examples turns = Ret examples ->
              Forall (fun ex => fst ex <> loved_ok /\ snd ex <> loved_ok)
                     examples)).
Proof.
  split; [apply is_junk_message_spec |].
  split; [vm_compute; reflexivity |].
  intros pyobjc cfg connection chat_ids fx messages Hres turns.
  pose proof (get_messages_not_junk pyobjc cfg connection chat_ids fx Hres)
    as Hmsgs.
  pose proof (turns_without_junk Hmsgs) as Hturns. fold turns in Hturns.
  split; [exact Hmsgs |]. split; [exact Hturns |].
  intros examples Hrun. apply pairs_from_turns in Hrun.
  eapply Forall_impl; [| exact Hrun].
  rewrite Forall_forall in Hturns.
  intros ex [[Hst | (t & Hin & Hfst)] (t' & Hin' & Hsnd)]; split.
  - rewrite Hst. vm_compute. discriminate.
  - rewrite Hsnd. apply (Hturns t' Hin').
  - rewrite Hfst. apply (Hturns t Hin).
  - rewrite Hsnd. apply (Hturns t' Hin').
Qed.

(* ------------------------------------------------------------------ *)
(** ** The scenarios of the specification, run *)

(** Scenario A: one turn of A, one of Me, one pair. *)
Example scenario_A_turns :
  map untimed_turn (group_messages_into_turns scenario_A)
  = [ (Some handle_A, false, [lit "hi"; lit "there"], lit "hi there");
      (None, true, [lit "hey"], lit "hey") ]
  /\ create_training_examples (group_messages_into_turns scenario_A)
     = Ret [(lit "hi there", lit "hey")].
Proof. vm_compute. split; reflexivity. Qed.

(** Scenario B: a first turn from Me is paired with the sentinel. *)
Example scenario_B_starter :
  create_training_examples
    (group_messages_into_turns
       [mkMessage 1 (lit "morning") 0 true None None])
  = Ret [(lit "[CONVERSATION_STARTER]", lit "morning")].
Proof. vm_compute. reflexivity. Qed.

(** Scenario D with a corrupt date and a tapback among the rows: the two
    chats of A form one conversation; the store answers the query made with
    the cutoff of thirty days; the tapback is dropped, the blob is decoded,
    the corrupt date becomes the second reading of the clock, after the one
    made for the cutoff, and the messages come out ascending, the re-dated
    one before the message dated ahead of the clock. *)
Example scenario_D_merge :
  get_all_conversations (Some store_two_threads)
  = [([handle_A], [1; 2]%Z); ([handle_B], [3]%Z)]
  /\ lookback_cutoff (P := exact_platform) config fresh_run
     = (Ret (Some 754790400000000000%Z), mkEffects 1 [])
  /\ messages_of_chats store_two_threads [1; 2]%Z
       (Some 754790400000000000%Z)
     = Ret [row_earlier; row_hello; row_tapback; row_ahead; row_corrupt]
  /\ option_map (map (fun m => (m_message_id m, m_text m, m_date m)))
       (match fst (get_messages_for_conversation (U := latin1)
                     (P := exact_platform) None config
                     (Some store_two_threads) [1; 2]%Z fresh_run) with
        | Ret messages => Some messages
        | Raise _ => None
        end)
     = Some [ (4, lit "ok!", 1733107200000000);
              (1, lit "hello", 1733307200000000);
              (2, lit "see you", 1735689601000000);
              (7, lit "tomorrow", 1738307200000000) ]%Z.
Proof. vm_compute. repeat split; reflexivity. Qed.

(** A lookback of 999999 days reaches before year 1: the subtraction
    raises [OverflowError], which nothing catches, in
    [get_messages_for_conversation] as in [process_all_conversations]. *)
Example lookback_out_of_range :
  fst (get_messages_for_conversation (U := latin1) (P := exact_platform) None
         config_far_back (Some store_two_threads) [1; 2]%Z fresh_run)
  = Raise OverflowError
  /\ fst (process_all_conversations (U := latin1) (P := exact_platform) None
            config_far_back (Some store_two_threads) fresh_run)
     = Raise OverflowError.
Proof. vm_compute. split; reflexivity. Qed.

(* ------------------------------------------------------------------ *)
(** ** Instances of the conditional statements *)

Lemma turns_ignore_timestamps_witness :
  map untimed_turn (group_messages_into_turns far_apart)
  = map untimed_turn (group_messages_into_turns close_together)
  /\ map t_messages (group_messages_into_turns far_apart)
     = [[lit "hi"; lit "there"]].
Proof.
  destruct (@turns_ignore_timestamps far_apart close_together) as [Hsame Hgap].
  - repeat constructor.
  - split; [exact Hsame |].
    apply (Hgap config _ _ eq_refl eq_refl). reflexivity.
Defined.

Lemma merge_is_sorted_witness :
  exists collected,
    Forall2 (message_of_row (U := latin1) (P := exact_platform) None)
            (filter (survives (U := latin1) None)
               [row_earlier; row_hello; row_tapback; row_ahead; row_corrupt])
            collected
    /\ fst (get_messages_for_conversation (U := latin1) (P := exact_platform)
              None config (Some store_two_threads) [1; 2]%Z fresh_run)
       = Ret (sort_by_date collected)
    /\ Permutation collected (sort_by_date collected)
    /\ StronglySorted date_le (sort_by_date collected).
Proof.
  destruct (@merge_is_sorted latin1 exact_platform None config
              (Some store_two_threads) [1; 2]%Z fresh_run)
    as (_ & _ & _ & Hrows & _).
  destruct (Hrows store_two_threads (Some 754790400000000000%Z)
              [row_earlier; row_hello; row_tapback; row_ahead; row_corrupt]
              eq_refl ltac:(discriminate) eq_refl eq_refl) as [_ Hall].
  apply Hall.
  repeat (apply Forall_cons; [vm_compute; auto |]). apply Forall_nil.
Defined.

Lemma corrupt_timestamp_is_redated_witness :
  convert_messages_timestamp (P := exact_platform) corrupt_timestamp fresh_run
  = (Ret (datetime_now (Platform := exact_platform) 0),
     mkEffects 1 [corrupt_timestamp])
  /\ exists earlier m later,
       get_messages_for_conversation (U := latin1) (P := exact_platform) None
         config (Some store_two_threads) [1; 2]%Z fresh_run
       = (Ret (earlier ++ m :: later), mkEffects 2 [corrupt_timestamp])
       /\ m_message_id m = 2%Z
       /\ m_text m = lit "see you"
       /\ m_date m = datetime_now (Platform := exact_platform) 1
       /\ Forall (fun x =>
                    (m_date x <= datetime_now (Platform := exact_platform) 1)%Z)
                 earlier
       /\ Forall (fun x =>
                    (datetime_now (Platform := exact_platform) 1 <= m_date x)%Z)
                 later
       /\ In corrupt_timestamp [corrupt_timestamp].
Proof.
  destruct (@corrupt_timestamp_is_redated latin1 exact_platform None config
              corrupt_timestamp fresh_run ValueError eq_refl
              (or_intror eq_refl))
    as [Hconv Hrow].
  split; [exact Hconv |].
  apply (Hrow store_two_threads [1; 2]%Z (Some 754790400000000000%Z)
              [row_earlier; row_hello; row_tapback; row_ahead] row_corrupt []).
  - discriminate.
  - reflexivity.
  - reflexivity.
  - repeat (apply Forall_cons; [vm_compute; auto |]). apply Forall_nil.
  - reflexivity.
  - vm_compute. reflexivity.
  - vm_compute. reflexivity.
Defined.

Lemma no_library_path_witness :
  let text := strip (decode_utf8_ignore [Byte.x68; Byte.x69]) in
  decode_attributed_body (U := latin1) None [Byte.x68; Byte.x69] = Some text
  /\ (decode_attributed_body (U := latin1) None [Byte.x68; Byte.x69]
      = attempt (raw_utf8_step (U := latin1) [Byte.x68; Byte.x69])
      <-> forallb (isprintable (UnicodeData := latin1)) text = true
          /\ (2 < len text)%Z).
Proof.
  apply (@no_library_path latin1 [Byte.x68; Byte.x69]). discriminate.
Defined.

Lemma one_on_one_selection_witness :
  let every := get_all_conversations (Some store_with_group) in
  let kept := select_conversations config every in
  kept = filter (fun kv => (length (fst kv) =? 1)%nat) every
  /\ Forall (fun kv => length (fst kv) = 1%nat) kept
  /\ (forall kv, In kv every ->
        (In kv kept <-> ~ (1 < length (fst kv))%nat))
  /\ process_all_conversations (U := latin1) (P := exact_platform) None config
       (Some store_with_group) fresh_run
     = match lookback_notice (P := exact_platform) config fresh_run with
       | (Ret _, fx1) =>
           process_conversations (U := latin1) (P := exact_platform) None
             config store_with_group kept [] fx1
       | (Raise e, fx1) => (Raise e, fx1)
       end.
Proof.
  apply (@one_on_one_selection latin1 exact_platform None config
           store_with_group fresh_run).
  reflexivity.
Defined.

(* ================================================================== *)
(** * Further properties of the code *)

(* ------------------------------------------------------------------ *)
(** ** More on turn segmentation *)

Lemma same_sender_by_key (m : Message) (c1 c2 : TurnAcc) :
  acc_key c1 = acc_key c2 -> same_sender m c1 = same_sender m c2.
Proof.
  unfold same_sender, acc_key. intros [= -> ->]. reflexivity.
Qed.

Lemma turns_from_length (rest : list Message) :
  forall cur prev,
    acc_key cur = msg_key prev ->
    length (turns_from cur rest) = S (key_changes (prev :: rest)).
Proof.
  induction rest as [|m rest IH]; intros cur prev Hk.
  - reflexivity.
  - cbn [turns_from key_changes]. unfold same_key.
    rewrite (same_sender_by_key m (c1 := seed prev) (c2 := cur))
      by (symmetry; exact Hk).
    destruct (same_sender m cur) eqn:Hs.
    + apply same_sender_key in Hs.
      rewrite (@IH (extend cur m) m) by (symmetry; exact Hs). reflexivity.
    + cbn [length]. rewrite (@IH (seed m) m) by reflexivity. reflexivity.
Qed.

Lemma key_changes_bound (l : list Message) :
  (key_changes l <= length l - 1)%nat.
Proof.
  induction l as [|a [|b l] IH]; simpl in *; try lia.
  destruct (same_key a b); lia.
Qed.

(** X1. The number of turns is one more than the number of adjacent
    messages that differ in (sender_id, is_from_me), for a non-empty list;
    it never exceeds the number of messages. *)
Theorem turn_count (messages : list Message) :
  length (group_messages_into_turns messages)
  = match messages with
    | [] => 0%nat
    | _ :: _ => S (key_changes messages)
    end
  /\ (length (group_messages_into_turns messages) <= length messages)%nat.
Proof.
  destruct messages as [|first rest].
  - split; [reflexivity | simpl; lia].
  - rewrite group_turns_from,
      (@turns_from_length rest (seed first) first eq_refl).
    split; [reflexivity |].
    pose proof (key_changes_bound (first :: rest)). simpl in *. lia.
Qed.

Lemma turns_from_chrono (rest : list Message) :
  forall cur,
    (acc_start_time cur <= acc_end_time cur)%Z ->
    StronglySorted date_le rest ->
    Forall (fun m => (acc_end_time cur <= m_date m)%Z) rest ->
    Forall (fun t => (t_start_time t <= t_end_time t)%Z) (turns_from cur rest)
    /\ turns_in_order (turns_from cur rest)
    /\ exists t ts,
         turns_from cur rest = t :: ts /\ t_start_time t = acc_start_time cur.
Proof.
  induction rest as [|m rest IH]; intros cur Hcur Hsorted Hafter.
  - simpl. repeat split.
    + constructor; [exact Hcur | constructor].
    + eexists _, _. split; reflexivity.
  - apply StronglySorted_inv in Hsorted as [Hsorted Hm].
    apply Forall_cons_iff in Hafter as [Hcm Hafter].
    cbn [turns_from]. destruct (same_sender m cur).
    + destruct (IH (extend cur m)) as (Hall & Hord & t & ts & Heq & Hstart).
      * simpl. lia.
      * exact Hsorted.
      * exact Hm.
      * repeat split; try assumption. exists t, ts. split; assumption.
    + destruct (IH (seed m)) as (Hall & Hord & t & ts & Heq & Hstart).
      * simpl. lia.
      * exact Hsorted.
      * exact Hm.
      * rewrite Heq in *. repeat split.
        -- constructor; [exact Hcur | exact Hall].
        -- simpl in Hstart |- *. lia.
        -- exact Hord.
        -- eexists _, _. split; reflexivity.
Qed.

(** X2. When the messages are in ascending order of date, every turn
    starts no later than it ends, and every turn ends no later than the
    next one starts. *)
Theorem chronological_turns (messages : list Message) :
  StronglySorted date_le messages ->
  Forall (fun t => (t_start_time t <= t_end_time t)%Z)
         (group_messages_into_turns messages)
  /\ turns_in_order (group_messages_into_turns messages).
Proof.
  intros Hsorted. destruct messages as [|first rest].
  - split; constructor.
  - rewrite group_turns_from.
    apply StronglySorted_inv in Hsorted as [Hsorted Hfirst].
    destruct (@turns_from_chrono rest (seed first)) as (Hall & Hord & _);
      simpl; auto. lia.
Qed.

Lemma last_cons_default {A} (l : list A) :
  forall x d, last (x :: l) d = last l x.
Proof.
  induction l as [|y l IH]; intros x d; [reflexivity |].
  change (last (x :: y :: l) d) with (last (y :: l) d).
  rewrite !IH. reflexivity.
Qed.

Lemma turns_from_app (r1 : list Message) :
  forall cur m r2,
    msg_key m <> last (map msg_key r1) (acc_key cur) ->
    turns_from cur (r1 ++ m :: r2)
    = turns_from cur r1 ++ turns_from (seed m) r2.
Proof.
  induction r1 as [|a r1 IH]; intros cur m r2 Hk.
  - simpl in *. destruct (same_sender m cur) eqn:Hs; [| reflexivity].
    apply same_sender_key in Hs. contradiction.
  - cbn [map] in Hk. rewrite last_cons_default in Hk.
    cbn [app turns_from]. destruct (same_sender a cur) eqn:Hs.
    + apply IH. apply same_sender_key in Hs.
      change (acc_key (extend cur a)) with (acc_key cur). rewrite <- Hs.
      exact Hk.
    + cbn [app]. f_equal. apply IH. exact Hk.
Qed.

(** X3. Segmentation distributes over concatenation at a change of sender:
    when the last message of a first list and the first message of a second
    differ in (sender_id, is_from_me), the turns of the concatenation are
    the turns of the first list followed by the turns of the second. *)
Theorem turns_of_concatenation (l1 l2 : list Message) (a m : Message) :
  msg_key a <> msg_key m ->
  group_messages_into_turns ((l1 ++ [a]) ++ m :: l2)
  = group_messages_into_turns (l1 ++ [a])
    ++ group_messages_into_turns (m :: l2).
Proof.
  intros Hk.
  assert (Hsplit : exists first r1,
             l1 ++ [a] = first :: r1
             /\ last (map msg_key r1) (msg_key first) = msg_key a).
  { destruct l1 as [|first r1].
    - exists a, []. split; reflexivity.
    - exists first, (r1 ++ [a]). split; [reflexivity |].
      rewrite map_app. simpl. apply last_last. }
  destruct Hsplit as (first & r1 & -> & Hlast).
  change ((first :: r1) ++ m :: l2) with (first :: (r1 ++ m :: l2)).
  rewrite !group_turns_from. apply turns_from_app.
  change (acc_key (seed first)) with (msg_key first). rewrite Hlast.
  intros Heq. apply Hk. symmetry. exact Heq.
Qed.

(* ------------------------------------------------------------------ *)
(** ** More on training pairs *)

Lemma neighbours_differ_nth (ts : list Turn) :
  forall j p t,
    neighbours_differ ts ->
    nth_error ts j = Some p -> nth_error ts (S j) = Some t ->
    turn_key p <> turn_key t.
Proof.
  induction ts as [|t1 ts IH]; intros j p t Hn Hp Ht.
  - destruct j; discriminate.
  - destruct ts as [|t2 ts]; [destruct j; discriminate |].
    destruct Hn as [Hd Hn]. destruct j as [|j].
    + simpl in Hp, Ht. injection Hp as <-. injection Ht as <-. exact Hd.
    + apply (IH j p t Hn); assumption.
Qed.

Lemma represented_key (chunks : list (list Message)) (ts : list Turn) :
  Forall2 Represents chunks ts ->
  forall t, In t ts ->
    exists m, In m (concat chunks) /\ msg_key m = turn_key t.
Proof.
  induction 1 as [|chunk t0 chunks ts Hr _ IH]; intros t Hin; [destruct Hin |].
  destruct Hin as [<- | Hin].
  - destruct Hr as (Hne & Hall & _). destruct chunk as [|m chunk]; [contradiction |].
    exists m. split; [simpl; left; reflexivity |].
    apply Forall_inv in Hall. exact Hall.
  - destruct (IH t Hin) as (m & Hm & Hk). exists m. split; [| exact Hk].
    simpl. apply in_or_app. right. exact Hm.
Qed.

(** X4. When all the messages sent by the user carry one and the same
    sender_id, the input of every training pair made from the turns of a
    message list is the sentinel or the text of a turn that is not the
    user's: the user's own words are never used as a prompt. *)
Theorem prompts_come_from_others (messages : list Message)
    (examples : list (str * str)) :
  (forall m m', In m messages -> In m' messages ->
     m_is_from_me m = true -> m_is_from_me m' = true ->
     m_sender_id m = m_sender_id m') ->
  create_training_examples (group_messages_into_turns messages)
  = Ret examples ->
  Forall (fun ex =>
            fst ex = CONVERSATION_STARTER
            \/ exists p, In p (group_messages_into_turns messages)
                         /\ t_is_from_me p = false /\ fst ex = t_text p)
         examples.
Proof.
  intros Hself Hrun.
  set (turns := group_messages_into_turns messages) in *.
  destruct (group_represents messages) as (chunks & Hc & Hf & Hn).
  fold turns in Hf, Hn.
  destruct (@examples_loop_spec turns turns [] [] eq_refl) as (E & Hloop & Hp & _).
  unfold create_training_examples in Hrun. simpl in Hloop.
  rewrite Hloop in Hrun. injection Hrun as <-. clear Hloop.
  induction Hp as [|i ex idxs E Hpair _ IH]; [constructor |].
  constructor; [| exact IH].
  destruct Hpair as (t & Hnth & Hme & _ & Hinp).
  destruct i as [|j]; [left; exact Hinp |].
  destruct Hinp as (p & Hq & Hinp). right. exists p.
  split; [eapply nth_error_In; exact Hq |]. split; [| exact Hinp].
  destruct (t_is_from_me p) eqn:Hpme; [| reflexivity].
  exfalso. apply (neighbours_differ_nth turns j Hn Hq Hnth).
  destruct (represented_key Hf p (nth_error_In _ _ Hq)) as (mp & Hmp & Hkp).
  destruct (represented_key Hf t (nth_error_In _ _ Hnth)) as (mt & Hmt & Hkt).
  rewrite Hc in Hmp, Hmt.
  unfold msg_key, turn_key in *.
  injection Hkp as Hps Hpf. injection Hkt as Hts Htf.
  rewrite <- Hps, <- Hts, Hpme, Hme. f_equal.
  apply Hself; congruence.
Qed.

Lemma examples_loop_app (turns r1 : list Turn) :
  forall i r2 acc,
    examples_loop turns i (r1 ++ r2) acc
    = bind (examples_loop turns i r1 acc)
           (fun acc' => examples_loop turns (i + length r1) r2 acc').
Proof.
  induction r1 as [|turn r1 IH]; intros i r2 acc.
  - simpl. rewrite Nat.add_0_r. reflexivity.
  - cbn [app examples_loop length].
    replace (i + S (length r1))%nat with (S i + length r1)%nat by lia.
    destruct (t_is_from_me turn); [| apply IH].
    destruct (if (0 <? i)%nat
              then bind (index turns (i - 1)) (fun prev => Ret (t_text prev))
              else Ret CONVERSATION_STARTER) as [input|e]; simpl;
      [apply IH | reflexivity].
Qed.

Lemma examples_loop_more_turns (turns extra rest : list Turn) :
  forall i acc,
    (i + length rest <= length turns)%nat ->
    examples_loop (turns ++ extra) i rest acc = examples_loop turns i rest acc.
Proof.
  induction rest as [|turn rest IH]; intros i acc Hlen; [reflexivity |].
  cbn [examples_loop]. simpl in Hlen.
  assert (Hidx : (0 < i)%nat ->
                 index (turns ++ extra) (i - 1) = index turns (i - 1)).
  { intros Hi. unfold index. rewrite nth_error_app1 by lia. reflexivity. }
  destruct (t_is_from_me turn); [| apply IH; lia].
  destruct (Nat.ltb_spec 0 i) as [Hi | Hi].
  - rewrite (Hidx Hi).
    destruct (bind (index turns (i - 1)) (fun prev => Ret (t_text prev)));
      simpl; [apply IH; lia | reflexivity].
  - simpl. apply IH. lia.
Qed.

(** X5. The pairs of a turn list depend only on the turns seen so far:
    adding a turn at the end keeps the pairs made before and adds one pair
    exactly when the new turn is the user's, with the text of the turn
    before it, or the sentinel if there is none, as input. *)
Theorem pairs_of_one_more_turn (turns : list Turn) (t : Turn) :
  create_training_examples (turns ++ [t])
  = bind (create_training_examples turns)
         (fun examples =>
            Ret (examples ++
                 if t_is_from_me t
                 then [(match rev turns with
                        | [] => CONVERSATION_STARTER
                        | p :: _ => t_text p
                        end, t_text t)]
                 else [])).
Proof.
  unfold create_training_examples.
  rewrite examples_loop_app, examples_loop_more_turns by (simpl; lia).
  destruct (examples_loop turns 0 turns []) as [examples|e]; [| reflexivity].
  cbn [bind examples_loop]. simpl (0 + length turns)%nat.
  destruct (t_is_from_me t); [| rewrite app_nil_r; reflexivity].
  destruct turns as [|t0 turns0] using rev_ind; [reflexivity |].
  rewrite rev_app_distr, length_app. simpl.
  replace (length turns0 + 1 - 1)%nat with (length turns0) by lia.
  replace (0 <? length turns0 + 1)%nat with true
    by (symmetry; apply Nat.ltb_lt; lia).
  unfold index.
  rewrite <- app_assoc, nth_error_app2, Nat.sub_diag by lia. reflexivity.
Qed.

Lemma user_chunks (chunks : list (list Message)) (ts : list Turn) :
  Forall2 Represents chunks ts ->
  concat (map t_messages (filter t_is_from_me ts))
  = map m_text (filter m_is_from_me (concat chunks)).
Proof.
  induction 1 as [|chunk t chunks ts Hr _ IH]; [reflexivity |].
  destruct Hr as (_ & Hall & Hm & _).
  cbn [concat filter]. rewrite filter_app, map_app, <- IH.
  assert (Hflag : Forall (fun m => m_is_from_me m = t_is_from_me t) chunk).
  { eapply Forall_impl; [| exact Hall]. intros m [= _ H]. exact H. }
  assert (Hchunk : filter m_is_from_me chunk
                   = if t_is_from_me t then chunk else []).
  { clear - Hflag. induction Hflag as [|m chunk Hm _ IH]; simpl.
    - destruct (t_is_from_me t); reflexivity.
    - rewrite Hm, IH. destruct (t_is_from_me t); reflexivity. }
  rewrite Hchunk. destruct (t_is_from_me t); simpl; [| reflexivity].
  rewrite Hm. reflexivity.
Qed.

(** X22. Every message of the user ends up in exactly one output: the
    outputs of the pairs are the texts of the user's turns, each the
    space-joined messages of its turn, and the messages of the user's turns
    taken together are the texts of the user's messages, all of them, once
    each and in order. *)
Theorem user_messages_are_the_outputs (messages : list Message) :
  let turns := group_messages_into_turns messages in
  exists examples,
    create_training_examples turns = Ret examples
    /\ map snd examples
       = map (fun t => join (lit " ") (t_messages t))
             (filter t_is_from_me turns)
    /\ concat (map t_messages (filter t_is_from_me turns))
       = map m_text (filter m_is_from_me messages).
Proof.
  intros turns.
  destruct (@examples_loop_spec turns turns [] [] eq_refl) as (E & Hloop & _ & Hout).
  simpl in Hloop. exists E. split; [exact Hloop |].
  destruct (group_represents messages) as (chunks & Hc & Hf & _).
  fold turns in Hf. split.
  - rewrite Hout. apply map_ext_in. intros t Hin.
    apply filter_In in Hin as [Hin _]. clear - Hf Hin.
    induction Hf as [|chunk t0 chunks ts Hr _ IH]; [destruct Hin |].
    destruct Hin as [<- | Hin]; [| apply IH, Hin].
    destruct Hr as (_ & _ & Hm & Ht & _). rewrite Ht, Hm. reflexivity.
  - rewrite <- Hc. apply user_chunks, Hf.
Qed.

Lemma no_adjacent_user_turns (messages : list Message) (ts : list Turn) :
  (forall m m', In m messages -> In m' messages ->
     m_is_from_me m = true -> m_is_from_me m' = true ->
     m_sender_id m = m_sender_id m') ->
  (forall t, In t ts ->
     exists m, In m messages /\ msg_key m = turn_key t) ->
  neighbours_differ ts ->
  (2 * length (filter t_is_from_me ts) <= S (length ts))%nat
  /\ (match ts with
      | t :: _ => t_is_from_me t = false
      | [] => True
      end ->
      (2 * length (filter t_is_from_me ts) <= length ts)%nat).
Proof.
  intros Hself. induction ts as [|t ts IH]; intros Hkeys Hn.
  - simpl. split; lia.
  - assert (Hn' : neighbours_differ ts)
      by (destruct ts; [exact I | apply Hn]).
    destruct IH as [IH1 IH2]; [intros t' Hin; apply Hkeys; right; exact Hin
                              | exact Hn' |].
    cbn [filter length]. destruct (t_is_from_me t) eqn:Hme.
    + assert (Hnext : match ts with
                      | t2 :: _ => t_is_from_me t2 = false
                      | [] => True
                      end).
      { destruct ts as [|t2 ts]; [exact I |].
        destruct (t_is_from_me t2) eqn:Hme2; [| reflexivity].
        exfalso. destruct Hn as [Hd _]. apply Hd.
        destruct (Hkeys t (or_introl eq_refl)) as (m & Hm & Hk).
        destruct (Hkeys t2 (or_intror (or_introl eq_refl))) as (m2 & Hm2 & Hk2).
        unfold msg_key, turn_key in *.
        injection Hk as Hs Hf. injection Hk2 as Hs2 Hf2.
        rewrite <- Hs, <- Hs2, Hme, Hme2. f_equal.
        apply Hself; congruence. }
      specialize (IH2 Hnext). cbn [length]. split; [lia | discriminate].
    + split; [lia |]. intros _. lia.
Qed.

(** X23. When all the messages sent by the user carry one and the same
    sender_id, no two adjacent turns are both the user's, so a list of n
    turns yields at most (n + 1) / 2 training pairs. *)
Theorem at_most_half_the_turns (messages : list Message)
    (examples : list (str * str)) :
  (forall m m', In m messages -> In m' messages ->
     m_is_from_me m = true -> m_is_from_me m' = true ->
     m_sender_id m = m_sender_id m') ->
  create_training_examples (group_messages_into_turns messages)
  = Ret examples ->
  (2 * length examples
   <= length (group_messages_into_turns messages) + 1)%nat.
Proof.
  intros Hself Hrun.
  set (turns := group_messages_into_turns messages) in *.
  destruct (group_represents messages) as (chunks & Hc & Hf & Hn).
  fold turns in Hf, Hn.
  destruct (@examples_loop_spec turns turns [] [] eq_refl) as (E & Hloop & _ & Hout).
  unfold create_training_examples in Hrun. simpl in Hloop.
  rewrite Hloop in Hrun. injection Hrun as <-.
  assert (Hlen : length E = length (filter t_is_from_me turns))
    by (rewrite <- (length_map snd), Hout, length_map; reflexivity).
  destruct (@no_adjacent_user_turns messages turns Hself) as [Hbound _].
  - intros t Hin. destruct (represented_key Hf t Hin) as (m & Hm & Hk).
    exists m. rewrite <- Hc. auto.
  - exact Hn.
  - lia.
Qed.

(* ------------------------------------------------------------------ *)
(** ** More on merging *)

Lemma insert_by_date_filter (d : Z) (x : Message) (l : list Message) :
  filter (fun m => (m_date m =? d)%Z)
         (insert_by (fun a b => (m_date a <? m_date b)%Z) x l)
  = filter (fun m => (m_date m =? d)%Z) (x :: l).
Proof.
  induction l as [|y l IH]; [reflexivity |].
  cbn [insert_by]. destruct (Z.ltb_spec (m_date y) (m_date x)) as [Hlt | Hge];
    [| reflexivity].
  cbn [filter] in *. rewrite IH.
  destruct (Z.eqb_spec (m_date y) d), (Z.eqb_spec (m_date x) d);
    try reflexivity. lia.
Qed.

(** X6. The sort by date is stable: the messages of any one date come out
    in the order in which they went in. *)
Theorem sort_by_date_is_stable (d : Z) (messages : list Message) :
  filter (fun m => (m_date m =? d)%Z) (sort_by_date messages)
  = filter (fun m => (m_date m =? d)%Z) messages.
Proof.
  unfold sort_by_date. induction messages as [|x l IH]; [reflexivity |].
  cbn [sort_by fold_right]. fold (sort_by (fun a b => (m_date a <? m_date b)%Z) l).
  rewrite insert_by_date_filter. cbn [filter]. rewrite IH. reflexivity.
Qed.

Lemma sort_by_date_id (messages : list Message) :
  StronglySorted date_le messages -> sort_by_date messages = messages.
Proof.
  unfold sort_by_date. induction 1 as [|a l Hl IH Ha]; [reflexivity |].
  cbn [sort_by fold_right]. fold (sort_by (fun a b => (m_date a <? m_date b)%Z) l).
  rewrite IH. destruct l as [|y l]; [reflexivity |].
  apply Forall_inv in Ha. unfold date_le in Ha.
  cbn [insert_by]. destruct (Z.ltb_spec (m_date y) (m_date a)); [lia | reflexivity].
Qed.

(** X7. Sorting again changes nothing: a list already ascending by date is
    returned as it is, and sorting a sorted list twice is sorting it once. *)
Theorem sort_by_date_keeps_sorted (messages : list Message) :
  (StronglySorted date_le messages -> sort_by_date messages = messages)
  /\ sort_by_date (sort_by_date messages) = sort_by_date messages.
Proof.
  split; [apply sort_by_date_id |].
  apply sort_by_date_id, sort_by_date_sorted.
Qed.

(** X8. When the lookback cutoff is computed, the store answers the query
    made with that cutoff, and no conversion raises anything else than
    [OSError] or [ValueError], the list returned by
    [get_messages_for_conversation] is the sort by date of one message per
    row that passes extraction and the junk filter, taken in row order:
    each has its row's id, sender, phone number and flag and the row's
    extracted text; no such row is lost and no message is made up.  The
    run logs one warning and reads the clock once for each of these rows
    whose date could not be converted, in row order. *)
Theorem merged_messages_are_the_surviving_rows
    {U : UnicodeData} {P : Platform}
    (pyobjc : option Foundation) (cfg : Config) (conn : Connection)
    (chat_ids : list Z) (cutoff : option Z) (rows : list Row)
    (fx : Effects) :
  chat_ids <> [] ->
  fst (lookback_cutoff cfg fx) = Ret cutoff ->
  messages_of_chats conn chat_ids cutoff = Ret rows ->
  Forall (fun r => conversion_handled (r_date r)) rows ->
  exists collected,
    Forall2 (message_of_row pyobjc) (filter (survives pyobjc) rows) collected
    /\ get_messages_for_conversation pyobjc cfg (Some conn) chat_ids fx
       = (Ret (sort_by_date collected),
          after_rows pyobjc rows (snd (lookback_cutoff cfg fx)))
    /\ length (sort_by_date collected)
       = length (filter (survives pyobjc) rows).
Proof.
  intros Hids Hcut Hq Hall.
  destruct (collect_messages_rows pyobjc Hall []
              (snd (lookback_cutoff cfg fx))) as (extra & Hc & Hrows).
  simpl in Hc.
  exists extra. split; [exact Hrows |].
  rewrite (get_messages_with_cutoff pyobjc cfg conn fx Hids Hcut), Hq, Hc.
  split; [reflexivity |].
  rewrite <- (Permutation_length (sort_by_date_perm extra)).
  symmetry. eapply Forall2_length; exact Hrows.
Qed.

(** X9. One row that passes the filters and whose timestamp conversion
    raises an exception other than [OSError] and [ValueError] makes
    [get_messages_for_conversation] return the empty list, when the cutoff
    is computed and the store answers the query made with it: all the
    other messages of the conversation are lost with it. *)
Theorem unhandled_conversion_empties_the_conversation
    {U : UnicodeData} {P : Platform}
    (pyobjc : option Foundation) (cfg : Config) (conn : Connection)
    (chat_ids : list Z) (cutoff : option Z) (rows : list Row) (fx : Effects)
    (row : Row) (e : exn) :
  fst (lookback_cutoff cfg fx) = Ret cutoff ->
  messages_of_chats conn chat_ids cutoff = Ret rows ->
  In row rows -> survives pyobjc row = true ->
  from_messages_epoch (r_date row) = Raise e ->
  e <> OSError -> e <> ValueError ->
  fst (get_messages_for_conversation pyobjc cfg (Some conn) chat_ids fx)
  = Ret [].
Proof.
  intros Hcut Hq Hin Hs Hconv H1 H2.
  destruct chat_ids as [|id ids]; [reflexivity |].
  rewrite (@get_messages_with_cutoff U P pyobjc cfg conn (id :: ids) fx cutoff
             ltac:(discriminate) Hcut), Hq.
  destruct (collect_messages_raises pyobjc rows []
              (snd (lookback_cutoff cfg fx)) row Hin Hs Hconv H1 H2)
    as (e' & fx' & ->).
  reflexivity.
Qed.

(* ------------------------------------------------------------------ *)
(** ** More on grouping *)

Lemma key_eqb_neq (a b : ParticipantKey) : key_eqb a b = false <-> a <> b.
Proof.
  unfold key_eqb.
  destruct (list_eq_dec (list_eq_dec N.eq_dec) a b); split; congruence.
Qed.

Lemma key_eqb_sym (a b : ParticipantKey) : key_eqb a b = key_eqb b a.
Proof.
  destruct (key_eqb a b) eqn:H1, (key_eqb b a) eqn:H2; try reflexivity.
  - apply key_eqb_eq in H1. apply key_eqb_neq in H2. congruence.
  - apply key_eqb_eq in H2. apply key_eqb_neq in H1. congruence.
Qed.

Lemma key_in_spec (keys : list ParticipantKey) (k : ParticipantKey) :
  key_in keys k = true <-> In k keys.
Proof.
  unfold key_in. rewrite existsb_exists. split.
  - intros (x & Hin & Heq). apply key_eqb_eq in Heq. subst x. exact Hin.
  - intros Hin. exists k. split; [exact Hin | apply key_eqb_eq; reflexivity].
Qed.

Lemma append_chat_absent (key : ParticipantKey) (chat_id : Z)
    (d : Conversations) :
  ~ In key (map fst d) -> append_chat key chat_id d = d ++ [(key, [chat_id])].
Proof.
  induction d as [|[k v] d IH]; intros Hnot; [reflexivity |].
  simpl in *. destruct (key_eqb k key) eqn:Hk.
  - apply key_eqb_eq in Hk. exfalso. apply Hnot. left. exact Hk.
  - rewrite IH; [reflexivity |]. intros Hin. apply Hnot. right. exact Hin.
Qed.

Lemma append_chat_present (key : ParticipantKey) (chat_id : Z)
    (d : Conversations) :
  NoDup (map fst d) -> In key (map fst d) ->
  append_chat key chat_id d
  = map (fun kv => if key_eqb (fst kv) key
                   then (fst kv, snd kv ++ [chat_id]) else kv) d.
Proof.
  induction d as [|[k v] d IH]; intros Hnd Hin; [destruct Hin |].
  simpl in *. apply NoDup_cons_iff in Hnd as [Hnot Hnd].
  destruct (key_eqb k key) eqn:Hk.
  - apply key_eqb_eq in Hk. subst k. f_equal.
    symmetry. rewrite <- (map_id d) at 2. apply map_ext_in.
    intros [k' v'] Hin'. simpl.
    destruct (key_eqb k' key) eqn:Hk'; [| reflexivity].
    apply key_eqb_eq in Hk'. subst k'. exfalso. apply Hnot.
    change key with (fst (key, v')). apply in_map, Hin'.
  - f_equal. apply IH; [exact Hnd |].
    destruct Hin as [-> | Hin]; [| exact Hin].
    apply key_eqb_neq in Hk. contradiction.
Qed.

Lemma chats_with_key_cons (k : ParticipantKey) (row : Z * option str)
    (rows : list (Z * option str)) :
  chats_with_key k (row :: rows)
  = if has_key k row then fst row :: chats_with_key k rows
    else chats_with_key k rows.
Proof.
  unfold chats_with_key. simpl. destruct (has_key k row); reflexivity.
Qed.

Lemma fresh_after_present (seen ks : list ParticipantKey)
    (k0 : ParticipantKey) :
  key_in seen k0 = true ->
  filter (fun k => negb (key_in seen k))
         (filter (fun k' => negb (key_eqb k0 k')) ks)
  = filter (fun k => negb (key_in seen k)) ks.
Proof.
  intros Hk0. induction ks as [|k ks IH]; [reflexivity |].
  cbn [filter]. destruct (key_eqb k0 k) eqn:Hk; cbn [negb filter].
  - apply key_eqb_eq in Hk. subst k. rewrite Hk0. cbn [negb]. exact IH.
  - rewrite IH. reflexivity.
Qed.

Lemma fresh_after_new (seen : list ParticipantKey) (k0 : ParticipantKey)
    (ks : list ParticipantKey) :
  filter (fun k => negb (key_in (seen ++ [k0]) k)) ks
  = filter (fun k => negb (key_in seen k))
           (filter (fun k' => negb (key_eqb k0 k')) ks).
Proof.
  induction ks as [|k ks IH]; [reflexivity |].
  cbn [filter]. unfold key_in at 1. rewrite existsb_app. simpl.
  rewrite orb_false_r, (key_eqb_sym k k0). fold (key_in seen k).
  destruct (key_eqb k0 k); cbn [negb filter].
  - rewrite orb_true_r. cbn [negb]. exact IH.
  - rewrite orb_false_r. rewrite IH. reflexivity.
Qed.

Lemma fold_add_row_closed_form (rows : list (Z * option str)) :
  forall d,
    NoDup (map fst d) ->
    fold_left add_row rows d
    = map (with_later_chats rows) d
      ++ map (bucket_of rows)
             (fresh_keys (map fst d) (first_seen (row_keys rows))).
Proof.
  induction rows as [|row rows IH]; intros d Hnd.
  - simpl. rewrite app_nil_r. rewrite <- (map_id d) at 1. apply map_ext.
    intros [k v]. unfold with_later_chats. simpl. rewrite app_nil_r. reflexivity.
  - cbn [fold_left]. destruct (row_key row) as [k0|] eqn:Hkey.
    + assert (Hadd : add_row d row = append_chat k0 (fst row) d).
      { unfold add_row, row_key in *. destruct row as [c0 [[|c p]|]];
          simpl in *; try discriminate. injection Hkey as <-. reflexivity. }
      assert (Hcons : forall k,
                 chats_with_key k (row :: rows)
                 = if key_eqb k0 k then fst row :: chats_with_key k rows
                   else chats_with_key k rows).
      { intros k. rewrite chats_with_key_cons. unfold has_key.
        rewrite Hkey. reflexivity. }
      assert (Hkeys : row_keys (row :: rows) = k0 :: row_keys rows).
      { unfold row_keys. simpl. rewrite Hkey. reflexivity. }
      rewrite Hadd, Hkeys. cbn [first_seen].
      destruct (key_in (map fst d) k0) eqn:Hin.
      * (* the key has its bucket already *)
        apply key_in_spec in Hin.
        rewrite IH by (apply append_chat_nodup; exact Hnd).
        rewrite (@append_chat_present k0 (fst row) d Hnd Hin).
        rewrite !map_map. simpl. f_equal.
        -- apply map_ext. intros [k v]. unfold with_later_chats. simpl.
           rewrite Hcons, (key_eqb_sym k0 k).
           destruct (key_eqb k k0); simpl; [| reflexivity].
           rewrite <- app_assoc. reflexivity.
        -- unfold fresh_keys. cbn [filter].
           assert (Hk0 : key_in (map fst d) k0 = true)
             by (apply key_in_spec; exact Hin).
           rewrite Hk0. cbn [negb].
           assert (Hsame :
                     map (fun kv => fst (if key_eqb (fst kv) k0
                                        then (fst kv, snd kv ++ [fst row])
                                        else kv)) d
                     = map fst d).
           { apply map_ext. intros [k v]. simpl.
             destruct (key_eqb k k0); reflexivity. }
           rewrite Hsame.
           pose proof (@fresh_after_present (map fst d)
                         (first_seen (row_keys rows)) k0 Hk0)
             as Hfilter.
           rewrite Hfilter. apply map_ext_in. intros k Hk.
           apply filter_In in Hk as [_ Hk]. unfold bucket_of.
           rewrite Hcons. destruct (key_eqb k0 k) eqn:Hk0k; [| reflexivity].
           apply key_eqb_eq in Hk0k. subst k. rewrite Hk0 in Hk. discriminate.
      * (* the key opens a new bucket at the end *)
        assert (Hnot : ~ In k0 (map fst d)).
        { intros H. apply key_in_spec in H. congruence. }
        rewrite IH by (apply append_chat_nodup; exact Hnd).
        rewrite (@append_chat_absent k0 (fst row) d Hnot).
        rewrite !map_app. simpl. rewrite <- app_assoc. f_equal.
        -- apply map_ext_in. intros [k v] Hkv. unfold with_later_chats. simpl.
           rewrite Hcons. destruct (key_eqb k0 k) eqn:Hk0k; [| reflexivity].
           apply key_eqb_eq in Hk0k. subst k. exfalso. apply Hnot.
           change k0 with (fst (k0, v)). apply in_map, Hkv.
        -- unfold fresh_keys. cbn [filter]. rewrite Hin. cbn [negb map].
           unfold with_later_chats at 1, bucket_of at 2. simpl.
           rewrite Hcons.
           assert (Hrefl : key_eqb k0 k0 = true) by (apply key_eqb_eq; reflexivity).
           rewrite Hrefl. f_equal.
           pose proof (@fresh_after_new (map fst d) k0
                         (first_seen (row_keys rows))) as Hfilter.
           rewrite Hfilter. apply map_ext_in. intros k Hk.
           apply filter_In in Hk as [Hk _]. apply filter_In in Hk as [_ Hk].
           unfold bucket_of. rewrite Hcons.
           destruct (key_eqb k0 k); [discriminate | reflexivity].
    + assert (Hadd : add_row d row = d).
      { unfold add_row, row_key in *. destruct row as [c0 [[|c p]|]];
          simpl in *; try discriminate; reflexivity. }
      assert (Hcons : forall k,
                 chats_with_key k (row :: rows) = chats_with_key k rows).
      { intros k. rewrite chats_with_key_cons. unfold has_key.
        rewrite Hkey. reflexivity. }
      assert (Hkeys : row_keys (row :: rows) = row_keys rows).
      { unfold row_keys. simpl. rewrite Hkey. reflexivity. }
      rewrite Hadd, Hkeys, (IH d Hnd). f_equal.
      * apply map_ext. intros [k v]. unfold with_later_chats.
        rewrite Hcons. reflexivity.
      * apply map_ext. intros k. unfold bucket_of. rewrite Hcons. reflexivity.
Qed.

Lemma fresh_keys_nil (ks : list ParticipantKey) : fresh_keys [] ks = ks.
Proof.
  unfold fresh_keys. induction ks as [|k ks IH]; [reflexivity |].
  change (filter (fun k => negb (key_in [] k)) (k :: ks))
    with (k :: filter (fun k => negb (key_in [] k)) ks).
  rewrite IH. reflexivity.
Qed.

(** X10. When the chat query answers with [rows], the mapping returned by
    [get_all_conversations] has one bucket per distinct participant key of
    the rows whose participants string is neither NULL nor empty, in the
    order in which the keys first occur, and the bucket of a key holds the
    chat ids of exactly the rows with that key, in row order. *)
Theorem conversations_closed_form (conn : Connection)
    (rows : list (Z * option str)) :
  chats_with_participants conn = Ret rows ->
  get_all_conversations (Some conn)
  = map (fun k => (k, chats_with_key k rows)) (first_seen (row_keys rows)).
Proof.
  intros Hq. unfold get_all_conversations. rewrite Hq.
  rewrite (@fold_add_row_closed_form rows [] (NoDup_nil _)).
  cbn [map app]. rewrite fresh_keys_nil. reflexivity.
Qed.

Lemma split_without_separator (sep : codepoint) (s : str) :
  ~ In sep s -> split sep s = [s].
Proof.
  induction s as [|c s IH]; intros Hnot; [reflexivity |].
  simpl. destruct (N.eqb_spec c sep) as [-> | Hne].
  - exfalso. apply Hnot. left. reflexivity.
  - rewrite IH; [reflexivity |]. intros Hin. apply Hnot. right. exact Hin.
Qed.

(** X11. For a non-empty list of handles none of which contains a comma,
    the participant key made from their comma-joined string is the sorted
    list of those handles: it has as many entries as there are handles, so
    a chat with one such handle gets a key of length 1. *)
Theorem key_of_comma_free_handles (hs : list str) :
  hs <> [] ->
  Forall (fun h => ~ In comma h) hs ->
  participant_key (join (lit ",") hs) = sorted hs
  /\ Permutation hs (participant_key (join (lit ",") hs))
  /\ length (participant_key (join (lit ",") hs)) = length hs.
Proof.
  intros Hne Hfree.
  assert (Hkey : participant_key (join (lit ",") hs) = sorted hs).
  { unfold participant_key. rewrite split_join by exact Hne. f_equal.
    clear Hne. induction Hfree as [|h hs Hh _ IH]; [reflexivity |].
    simpl. rewrite (@split_without_separator comma h Hh), IH. reflexivity. }
  rewrite Hkey. split; [reflexivity |].
  assert (Hperm : Permutation hs (sorted hs)) by apply sort_by_perm.
  split; [exact Hperm | symmetry; apply Permutation_length, Hperm].
Qed.

Lemma append_chat_ids (key : ParticipantKey) (chat_id : Z) (d : Conversations) :
  Permutation (concat (map snd (append_chat key chat_id d)))
              (chat_id :: concat (map snd d)).
Proof.
  induction d as [|[k v] d IH]; [apply Permutation_refl |].
  simpl. destruct (key_eqb k key); simpl.
  - rewrite <- app_assoc. simpl. apply Permutation_sym, Permutation_middle.
  - eapply perm_trans; [apply Permutation_app_head, IH |].
    apply Permutation_sym, Permutation_middle.
Qed.

Lemma append_chat_buckets (key : ParticipantKey) (chat_id : Z)
    (d : Conversations) :
  Forall (fun kv => snd kv <> []) d ->
  Forall (fun kv => snd kv <> []) (append_chat key chat_id d).
Proof.
  induction 1 as [|[k v] d Hkv Hd IH]; simpl.
  - constructor; [discriminate | constructor].
  - destruct (key_eqb k key); constructor; try assumption.
    simpl. destruct v; discriminate.
Qed.

Lemma fold_add_row_ids (rows : list (Z * option str)) :
  forall d,
    Forall (fun kv => snd kv <> []) d ->
    Permutation (concat (map snd (fold_left add_row rows d)))
                (concat (map snd d) ++ map fst (filter has_participants rows))
    /\ Forall (fun kv => snd kv <> []) (fold_left add_row rows d).
Proof.
  induction rows as [|row rows IH]; intros d Hd.
  - simpl. rewrite app_nil_r. split; [apply Permutation_refl | exact Hd].
  - cbn [fold_left filter]. unfold has_participants at 1, row_key, add_row.
    destruct row as [c0 [[|c p]|]]; cbn [fst snd]; try (apply IH; exact Hd).
    destruct (IH (append_chat (participant_key (c :: p)) c0 d)
                 (append_chat_buckets _ c0 Hd)) as [Hperm Hne].
    split; [| exact Hne].
    eapply perm_trans; [exact Hperm |]. cbn [map fst].
    eapply perm_trans; [apply Permutation_app_tail, append_chat_ids |].
    simpl. apply Permutation_middle.
Qed.

(** X21. Grouping neither loses nor repeats a chat: when the chat query
    answers with [rows], the chat ids found in the buckets of
    [get_all_conversations], taken together, are the chat ids of the rows
    whose participants string is neither NULL nor empty, each as often as it
    occurs there; and no bucket is empty. *)
Theorem grouping_partitions_the_chats (conn : Connection)
    (rows : list (Z * option str)) :
  chats_with_participants conn = Ret rows ->
  Permutation (concat (map snd (get_all_conversations (Some conn))))
              (map fst (filter has_participants rows))
  /\ Forall (fun kv => snd kv <> []) (get_all_conversations (Some conn)).
Proof.
  intros Hq. unfold get_all_conversations. rewrite Hq.
  destruct (@fold_add_row_ids rows [] (Forall_nil _)) as [Hperm Hne].
  split; [exact Hperm | exact Hne].
Qed.

(* ------------------------------------------------------------------ *)
(** ** More on the junk filter *)

(** X12. The second tapback pattern, with the quoted excerpt, never
    decides anything: the tapback test gives on every text the answer of
    the first pattern alone. *)
Theorem quoted_tapback_pattern_is_redundant (text : str) :
  existsb (fun pattern => re_match pattern text) tapback_patterns
  = re_match (seq_of [Bol; verbs]) text.
Proof.
  unfold tapback_patterns. cbn [existsb]. rewrite orb_false_r.
  destruct (re_match (seq_of [Bol; verbs; Chr 32%N; Chr dquote; Star Dot;
                              Chr dquote; Eol]) text) eqn:H2;
    [| apply orb_false_r].
  rewrite orb_true_r. symmetry.
  unfold re_match in *. cbn [seq_of accepts andb] in *.
  apply accepts_verbs in H2 as (verb & head & rest & Hin & Hs & Hci & _).
  apply accepts_verbs. exists verb, head, rest. auto.
Qed.

Lemma first_letter_ignorecase (c0 x : codepoint) :
  In c0 [76; 68; 69; 81; 91]%N ->
  chr_ignorecase c0 x = true -> may_open_junk x = true.
Proof.
  intros Hin H. unfold chr_ignorecase, ascii_lower, between in H.
  assert (Hx : In x [76; 108; 68; 100; 69; 101; 81; 113; 91]%N).
  { repeat (destruct Hin as [<- | Hin];
            [ simpl in H; rewrite ?orb_false_r in H; apply N.eqb_eq in H;
              destruct ((65 <=? x)%N && (x <=? 90)%N) eqn:Hr;
              [ apply andb_true_iff in Hr as [Hlo Hhi];
                apply N.leb_le in Hlo, Hhi; simpl; lia
              | simpl; lia ] |]).
    destruct Hin. }
  unfold may_open_junk. apply existsb_exists. exists x.
  split; [exact Hx | apply N.eqb_refl].
Qed.

Lemma verbs_first_letter (verb : str) :
  In verb reaction_verbs ->
  exists c0 w, verb = c0 :: w /\ In c0 [76; 68; 69; 81; 91]%N.
Proof.
  intros Hin.
  repeat (destruct Hin as [<- | Hin];
          [eexists _, _; split; [reflexivity | simpl; tauto] |]).
  destruct Hin.
Qed.

Lemma tokens_first_letter (token : str) :
  In token media_tokens ->
  exists w, token = 91%N :: w.
Proof.
  intros Hin.
  repeat (destruct Hin as [<- | Hin]; [eexists; reflexivity |]).
  destruct Hin.
Qed.

(** X13. A text whose first character is none of L, D, E, Q (in either
    case) and [[], and which has at least 2 characters once trimmed, is
    never classified as junk. *)
Theorem ordinary_text_is_kept (c : codepoint) (t : str) :
  may_open_junk c = false ->
  (2 <= len (strip (c :: t)))%Z ->
  is_junk_message (Some (c :: t)) = false.
Proof.
  intros Hc Hlen.
  destruct (is_junk_message (Some (c :: t))) eqn:Hjunk; [| reflexivity].
  exfalso. apply is_junk_message_spec in Hjunk.
  destruct Hjunk as [H | [H | (t' & [= <-] & [H | [H | H]])]];
    try discriminate.
  - apply starts_with_verb_shorthand in H
      as (verb & head & rest & Hin & Heq & Hci).
    destruct (@verbs_first_letter verb Hin) as (c0 & w & -> & Hc0).
    inversion Hci as [|c0' x w' head' Hm _]; subst.
    injection Heq as <- _.
    rewrite (@first_letter_ignorecase c0 c Hc0 Hm) in Hc. discriminate.
  - destruct H as (token & Hin & H).
    destruct (@tokens_first_letter token Hin) as (w & ->).
    assert (Hm : chr_ignorecase 91 c = true).
    { destruct H as [Hci | (head & Heq & Hci)].
      - inversion Hci; subst. assumption.
      - inversion Hci as [|c0' x w' head' Hm _]; subst.
        injection Heq as <- _. exact Hm. }
    rewrite (@first_letter_ignorecase 91%N c) in Hc;
      [discriminate | simpl; tauto | exact Hm].
  - lia.
Qed.

Lemma ascii_upper_cases (x : codepoint) :
  ascii_upper x = x
  \/ ((97 <= x <= 122)%N /\ ascii_upper x = (x - 32)%N).
Proof.
  unfold ascii_upper, between.
  destruct (N.leb_spec 97 x), (N.leb_spec x 122); simpl; auto.
Qed.

Lemma letters_are_not_space (y : codepoint) :
  (65 <= y <= 122)%N -> isspace y = false.
Proof.
  intros Hy. unfold isspace, between.
  replace (y <=? 0x0D)%N with false by (symmetry; apply N.leb_gt; lia).
  replace (y <=? 0x20)%N with false by (symmetry; apply N.leb_gt; lia).
  replace (0x2000 <=? y)%N with false by (symmetry; apply N.leb_gt; lia).
  repeat match goal with
         | |- context [(y =? ?v)%N] =>
             replace (y =? v)%N with false by (symmetry; apply N.eqb_neq; lia)
         end.
  rewrite !andb_false_r. reflexivity.
Qed.

Lemma isspace_upper (x : codepoint) : isspace (ascii_upper x) = isspace x.
Proof.
  destruct (ascii_upper_cases x) as [-> | [Hx ->]]; [reflexivity |].
  rewrite !letters_are_not_space by lia. reflexivity.
Qed.

Lemma newline_upper (x : codepoint) :
  (ascii_upper x =? newline)%N = (x =? newline)%N.
Proof.
  destruct (ascii_upper_cases x) as [-> | [Hx ->]]; [reflexivity |].
  unfold newline.
  destruct (N.eqb_spec (x - 32) 10), (N.eqb_spec x 10); try reflexivity; lia.
Qed.

Lemma chr_ignorecase_upper (c x : codepoint) :
  chr_ignorecase c (ascii_upper x) = chr_ignorecase c x.
Proof.
  destruct (ascii_upper_cases x) as [-> | [Hx ->]]; [reflexivity |].
  unfold chr_ignorecase.
  assert (Hlow : ascii_lower (x - 32) = ascii_lower x).
  { unfold ascii_lower, between.
    replace (65 <=? x - 32)%N with true by (symmetry; apply N.leb_le; lia).
    replace (x - 32 <=? 90)%N with true by (symmetry; apply N.leb_le; lia).
    replace (x <=? 90)%N with false by (symmetry; apply N.leb_gt; lia).
    rewrite andb_false_r. simpl. lia. }
  rewrite Hlow.
  repeat match goal with
         | |- context [(x - 32 =? ?v)%N] =>
             replace (x - 32 =? v)%N with false
               by (symmetry; apply N.eqb_neq; lia)
         end.
  replace (x =? 304)%N with false by (symmetry; apply N.eqb_neq; lia).
  replace (x =? 305)%N with false by (symmetry; apply N.eqb_neq; lia).
  replace (x =? 8490)%N with false by (symmetry; apply N.eqb_neq; lia).
  replace (x =? 383)%N with false by (symmetry; apply N.eqb_neq; lia).
  reflexivity.
Qed.

Lemma at_eol_upper (s : str) : at_eol (map ascii_upper s) = at_eol s.
Proof.
  destruct s as [|x [|y s]]; try reflexivity. simpl. apply newline_upper.
Qed.

Lemma accepts_upper (r : regex) :
  forall (k k' : bool -> str -> bool) at0 s,
    (forall a t, k a t = k' a (map ascii_upper t)) ->
    accepts r k at0 s = accepts r k' at0 (map ascii_upper s).
Proof.
  induction r as [| c | | | | r1 IH1 r2 IH2 | r1 IH1 r2 IH2 | r1 IH1];
    intros k k' at0 s Hk; cbn [accepts].
  - apply Hk.
  - destruct s as [|x s]; [reflexivity |]. cbn [map].
    rewrite chr_ignorecase_upper, Hk. reflexivity.
  - destruct s as [|x s]; [reflexivity |]. cbn [map].
    rewrite newline_upper, Hk. reflexivity.
  - rewrite Hk. reflexivity.
  - rewrite at_eol_upper, Hk. reflexivity.
  - apply IH1. intros a t. apply IH2. exact Hk.
  - rewrite (IH1 k k' at0 s Hk), (IH2 k k' at0 s Hk). reflexivity.
  - rewrite length_map. generalize (length s) as fuel.
    intros fuel. revert at0 s.
    induction fuel as [|fuel IHf]; intros at0 s.
    + rewrite Hk. reflexivity.
    + rewrite Hk. f_equal. apply IH1. intros a t.
      rewrite !length_map. f_equal. apply IHf.
Qed.

Lemma lstrip_upper (s : str) :
  lstrip (map ascii_upper s) = map ascii_upper (lstrip s).
Proof.
  induction s as [|x s IH]; [reflexivity |].
  cbn [map lstrip]. rewrite isspace_upper.
  destruct (isspace x); [exact IH | reflexivity].
Qed.

Lemma strip_upper (s : str) :
  strip (map ascii_upper s) = map ascii_upper (strip s).
Proof.
  unfold strip, rstrip.
  rewrite lstrip_upper, <- map_rev, lstrip_upper, map_rev. reflexivity.
Qed.

Lemma existsb_same {A} (f g : A -> bool) (l : list A) :
  (forall x, f x = g x) -> existsb f l = existsb g l.
Proof.
  intros H. induction l as [|x l IH]; [reflexivity |].
  simpl. rewrite H, IH. reflexivity.
Qed.

(** X24. The verdict of [is_junk_message] does not depend on the case of
    ASCII letters: a text and the same text with its ASCII lower-case
    letters capitalised are both junk or both kept. *)
Theorem junk_verdict_ignores_ascii_case (text : str) :
  is_junk_message (Some (map ascii_upper text))
  = is_junk_message (Some text).
Proof.
  destruct text as [|c t]; [reflexivity |].
  change (map ascii_upper (c :: t))
    with (ascii_upper c :: map ascii_upper t).
  cbn [is_junk_message].
  change (ascii_upper c :: map ascii_upper t)
    with (map ascii_upper (c :: t)).
  assert (Hre : forall pattern,
             re_match pattern (map ascii_upper (c :: t))
             = re_match pattern (c :: t)).
  { intros pattern. unfold re_match. symmetry.
    apply accepts_upper. reflexivity. }
  rewrite (existsb_same _ (fun pattern => re_match pattern (c :: t))
             tapback_patterns Hre).
  rewrite (existsb_same _ (fun pattern => re_match pattern (c :: t))
             attachment_patterns Hre).
  rewrite strip_upper. unfold len. rewrite length_map. reflexivity.
Qed.

(* ------------------------------------------------------------------ *)
(** ** More on text extraction *)

Lemma lstrip_head (s : str) (c : codepoint) (r : str) :
  lstrip s = c :: r -> isspace c = false.
Proof.
  induction s as [|x s IH]; simpl; [discriminate |].
  destruct (isspace x) eqn:Hx; [exact IH |].
  intros [= <- _]. exact Hx.
Qed.

Lemma lstrip_prefix (s : str) :
  exists w, s = w ++ lstrip s.
Proof.
  induction s as [|x s [w IH]]; [exists []; reflexivity |].
  simpl. destruct (isspace x).
  - exists (x :: w). simpl. f_equal. exact IH.
  - exists []. reflexivity.
Qed.

Lemma lstrip_fixed (s : str) : lstrip (lstrip s) = lstrip s.
Proof.
  destruct (lstrip s) as [|c r] eqn:H; [reflexivity |].
  simpl. rewrite (@lstrip_head s c r H). reflexivity.
Qed.

Lemma strip_trimmed (s : str) :
  strip s <> [] -> trimmed (strip s) /\ strip (strip s) = strip s.
Proof.
  unfold strip, rstrip. intros Hne.
  set (a := lstrip s) in *. set (b := lstrip (rev a)) in *.
  destruct (lstrip_prefix (rev a)) as [w Hw]. fold b in Hw.
  assert (Ha : a = rev b ++ rev w)
    by (rewrite <- rev_app_distr, <- Hw, rev_involutive; reflexivity).
  assert (Hfirst : exists x r, rev b = x :: r /\ isspace x = false).
  { destruct (rev b) as [|x r] eqn:Hb; [contradiction |].
    exists x, r. split; [reflexivity |].
    apply (@lstrip_head s x (r ++ rev w)). fold a. rewrite Ha. reflexivity. }
  assert (Hlast : exists r y, rev b = r ++ [y] /\ isspace y = false).
  { destruct b as [|y b'] eqn:Hb; [contradiction |].
    exists (rev b'), y. split; [reflexivity |].
    apply (@lstrip_head (rev a) y b'). exact Hb. }
  split; [split; assumption |].
  destruct Hfirst as (x & r & Hxr & Hx).
  assert (Hl : lstrip (rev b) = rev b)
    by (rewrite Hxr; simpl; rewrite Hx; reflexivity).
  rewrite Hl, rev_involutive. unfold b at 1. rewrite lstrip_fixed.
  reflexivity.
Qed.

(** X14. A text taken from the text field is returned trimmed: it is not
    empty, it neither starts nor ends with a whitespace character, and
    trimming it again changes nothing, whatever the blob holds. *)
Theorem extracted_text_is_trimmed {U : UnicodeData}
    (pyobjc : option Foundation) (text : option str)
    (attributed_body : option bytes) :
  text_present text ->
  exists s,
    extract_message_text pyobjc text attributed_body = Some s
    /\ s <> [] /\ trimmed s /\ strip s = s.
Proof.
  intros Hp. pose proof Hp as (t & -> & Hne).
  exists (strip t). unfold extract_message_text.
  apply has_text_present in Hp. rewrite Hp.
  destruct (@strip_trimmed t Hne) as [Htrim Hfix]. auto.
Qed.

Lemma utf8_ignore_ascii (data : list N) :
  Forall (fun b => (b < 128)%N) data -> utf8_ignore data = data.
Proof.
  induction 1 as [|ch data Hch _ IH]; [reflexivity |].
  cbn [utf8_ignore]. apply N.ltb_lt in Hch. rewrite Hch, IH. reflexivity.
Qed.

(** X15. Without the libraries, a non-empty blob of ASCII bytes is decoded
    to exactly its characters, trimmed: nothing is dropped or altered in
    between. *)
Theorem ascii_blob_decodes_to_itself {U : UnicodeData} (data : bytes) :
  data <> [] ->
  Forall (fun b => (Byte.to_N b < 128)%N) data ->
  decode_attributed_body None data = Some (strip (map Byte.to_N data)).
Proof.
  intros Hne Hascii. destruct data as [|b data]; [contradiction |].
  cbn [decode_attributed_body attempt]. unfold decode_utf8_ignore.
  rewrite utf8_ignore_ascii; [reflexivity |].
  apply Forall_map. exact Hascii.
Qed.

Lemma lstrip_length (s : str) : (length (lstrip s) <= length s)%nat.
Proof.
  destruct (lstrip_prefix s) as [w Hw]. rewrite Hw at 2.
  rewrite length_app. lia.
Qed.

Lemma strip_length (s : str) : (length (strip s) <= length s)%nat.
Proof.
  unfold strip, rstrip. rewrite length_rev.
  pose proof (lstrip_length (rev (lstrip s))) as H1.
  rewrite length_rev in H1. pose proof (lstrip_length s). lia.
Qed.

Lemma utf8_ignore_length (n : nat) :
  forall data,
    (length data <= n)%nat ->
    (length (utf8_ignore data) <= length data)%nat.
Proof.
  induction n as [|n IH]; intros data Hn.
  - destruct data; [simpl; lia | simpl in Hn; lia].
  - destruct data as [|ch r1]; [simpl; lia |].
    cbn [utf8_ignore].
    repeat match goal with
           | |- context [if ?b then _ else _] => destruct b
           | |- context [match ?l with [] => _ | _ :: _ => _ end] =>
               destruct l
           end;
      cbn [length] in *;
      repeat match goal with
             | |- context [utf8_ignore ?r] =>
                 let H := fresh "Hrec" in
                 assert (H : (length (utf8_ignore r) <= length r)%nat)
                   by (apply IH; cbn [length]; lia);
                 cbn [length] in H;
                 generalize dependent (utf8_ignore r); intros
             end;
      lia.
Qed.

(** X16. A text accepted by the raw UTF-8 step consists of printable
    characters only, has more than 2 of them and no more characters than
    the blob has bytes; it is the trimmed lenient decoding of the blob with
    the non-printable characters removed. *)
Theorem accepted_salvage_text {U : UnicodeData} (data : bytes) (s : str) :
  attempt (raw_utf8_step data) = Some s ->
  s = filter isprintable (strip (decode_utf8_ignore data))
  /\ forallb isprintable s = true
  /\ (2 < len s <= len data)%Z.
Proof.
  unfold raw_utf8_step.
  set (text := strip (decode_utf8_ignore data)).
  destruct (len (filter isprintable text) >? 2)%Z eqn:Hlen; [| discriminate].
  intros [= <-]. split; [reflexivity |]. split.
  - apply forallb_forall. intros x Hx. apply filter_In in Hx as [_ Hx]. exact Hx.
  - apply Z.gtb_lt in Hlen. split; [lia |].
    unfold len. apply inj_le.
    pose proof (filter_length_le isprintable text).
    pose proof (strip_length (decode_utf8_ignore data)). fold text in H0.
    pose proof (@utf8_ignore_length (length (map Byte.to_N data))
                  (map Byte.to_N data) (le_n _)) as H1.
    rewrite length_map in H1. unfold decode_utf8_ignore in H0. lia.
Qed.

(* ------------------------------------------------------------------ *)
(** ** More on the orchestrator *)

Lemma join_nonempty (texts : list str) :
  texts <> [] -> Forall (fun x => x <> []) texts ->
  join (lit " ") texts <> [].
Proof.
  intros Hne Hall. destruct texts as [|x texts]; [contradiction |].
  apply Forall_inv in Hall. destruct x as [|c x]; [contradiction |].
  destruct texts; simpl; discriminate.
Qed.

Lemma turn_texts_nonempty (messages : list Message) :
  Forall (fun m => m_text m <> []) messages ->
  Forall (fun t => t_text t <> []) (group_messages_into_turns messages).
Proof.
  intros Hall.
  destruct (group_represents messages) as (chunks & Hc & Hf & _).
  subst messages.
  induction Hf as [|chunk t chunks ts Hr _ IH]; [constructor |].
  simpl in Hall. apply Forall_app in Hall as [Hchunk Hrest].
  constructor; [| apply IH, Hrest].
  destruct Hr as (Hne & _ & _ & Ht & _). rewrite Ht.
  apply join_nonempty.
  - destruct chunk; [contradiction | discriminate].
  - apply Forall_map. exact Hchunk.
Qed.

Section Orchestrator.

Context {U : UnicodeData} {P : Platform}.
Variable pyobjc : option Foundation.
Variable cfg : Config.

Lemma conversation_pairs_nonempty connection chat_ids fx messages :
  fst (get_messages_for_conversation pyobjc cfg connection chat_ids fx)
  = Ret messages ->
  exists examples,
    create_training_examples (group_messages_into_turns messages)
    = Ret examples
    /\ Forall (fun ex => fst ex <> [] /\ snd ex <> []) examples.
Proof.
  intros Hres.
  set (turns := group_messages_into_turns messages).
  destruct (@examples_loop_spec turns turns [] [] eq_refl) as (E & Hloop & _).
  simpl in Hloop. exists E. split; [exact Hloop |].
  assert (Htexts : Forall (fun t => t_text t <> []) turns).
  { apply turn_texts_nonempty.
    pose proof (get_messages_not_junk pyobjc cfg connection chat_ids fx Hres)
      as Hnj.
    eapply Forall_impl; [| exact Hnj].
    intros m Hm Hnil. cbv beta in Hm. rewrite Hnil in Hm. discriminate. }
  rewrite Forall_forall in Htexts.
  pose proof (pairs_from_turns turns Hloop) as Hpairs.
  eapply Forall_impl; [| exact Hpairs].
  intros ex [[Hst | (t & Hin & Hfst)] (t' & Hin' & Hsnd)]; split.
  - rewrite Hst. discriminate.
  - rewrite Hsnd. apply Htexts, Hin'.
  - rewrite Hfst. apply Htexts, Hin.
  - rewrite Hsnd. apply Htexts, Hin'.
Qed.

Lemma lookback_raises_days (e : exn) :
  lookback_raises cfg e -> DAYS_BACK cfg <> None.
Proof.
  intros (fx & H) Hnone. unfold lookback_cutoff, lookback_notice in H.
  rewrite Hnone in H. destruct H; discriminate.
Qed.

(** The loop ends with the pairs of the conversations, or with what the
    computation of a cutoff raised. *)
Lemma process_conversations_spec (conn : Connection)
    (conversations : Conversations) :
  forall all_examples fx,
    (exists new fx',
       process_conversations pyobjc cfg conn conversations all_examples fx
       = (Ret (all_examples ++ new), fx')
       /\ Forall (fun ex => fst ex <> [] /\ snd ex <> []) new)
    \/ (exists e fx',
          process_conversations pyobjc cfg conn conversations all_examples fx
          = (Raise e, fx')
          /\ lookback_raises cfg e).
Proof.
  induction conversations as [|[participants chat_ids] rest IH];
    intros all_examples fx.
  - left. exists [], fx. simpl. rewrite app_nil_r.
    split; [reflexivity | constructor].
  - cbn [process_conversations].
    destruct (get_messages_for_conversation pyobjc cfg (Some conn) chat_ids
                fx) as [[messages|e] fx1] eqn:Hget.
    + destruct (@conversation_pairs_nonempty (Some conn) chat_ids fx messages)
        as (examples & Hrun & Hall); [rewrite Hget; reflexivity |].
      destruct messages as [|m messages]; [apply IH |].
      rewrite Hrun.
      destruct (IH (all_examples ++ examples) fx1)
        as [(new & fx' & Hrest & Hnew) | (e & fx' & Hrest & Hr)].
      * left. exists (examples ++ new), fx'. split.
        -- rewrite Hrest, <- app_assoc. reflexivity.
        -- apply Forall_app. split; assumption.
      * right. exists e, fx'. split; assumption.
    + right. exists e, fx1. split; [reflexivity |].
      exists fx. left.
      apply (get_messages_raises pyobjc cfg (Some conn) chat_ids fx e).
      rewrite Hget. reflexivity.
Qed.

Lemma process_all_conversations_spec (db : option Connection) (fx : Effects) :
  (exists examples fx',
     process_all_conversations pyobjc cfg db fx = (Ret examples, fx')
     /\ Forall (fun ex => fst ex <> [] /\ snd ex <> []) examples)
  \/ (exists e fx',
        process_all_conversations pyobjc cfg db fx = (Raise e, fx')
        /\ lookback_raises cfg e).
Proof.
  unfold process_all_conversations. destruct db as [conn|].
  - destruct (lookback_notice cfg fx) as [[[]|e] fx1] eqn:Hnotice.
    + destruct (process_conversations_spec conn
                  (select_conversations cfg
                     (get_all_conversations (Some conn))) [] fx1)
        as [(new & fx' & Hrun & Hall) | (e & fx' & Hrun & Hr)].
      * left. exists new, fx'. split; [exact Hrun | exact Hall].
      * right. exists e, fx'. split; [exact Hrun | exact Hr].
    + right. exists e, fx1. split; [reflexivity |].
      exists fx. right. rewrite Hnotice. reflexivity.
  - left. exists [], fx. split; [reflexivity | constructor].
Qed.

End Orchestrator.

(** X17. What [process_all_conversations] returns is a list of pairs
    neither side of which is the empty text.  It raises only what the
    computation of the lookback date raises, which takes a connection and
    a [DAYS_BACK] that is not [None]: without a connection or with
    [DAYS_BACK] set to [None] it returns, whatever the store answers. *)
Theorem pipeline_returns_nonempty_pairs {U : UnicodeData} {P : Platform}
    (pyobjc : option Foundation) (cfg : Config) (db : option Connection)
    (fx : Effects) :
  let result := fst (process_all_conversations pyobjc cfg db fx) in
  (forall examples,
     result = Ret examples ->
     Forall (fun ex => fst ex <> [] /\ snd ex <> []) examples)
  /\ (forall e,
        result = Raise e ->
        db <> None /\ DAYS_BACK cfg <> None /\ lookback_raises cfg e)
  /\ (db = None \/ DAYS_BACK cfg = None ->
      exists examples, result = Ret examples).
Proof.
  intros result. subst result.
  assert (Hdb : db = None ->
                fst (process_all_conversations pyobjc cfg db fx) = Ret [])
    by (intros ->; reflexivity).
  destruct (process_all_conversations_spec pyobjc cfg db fx)
    as [(examples & fx' & Hrun & Hall) | (e & fx' & Hrun & Hr)];
    rewrite Hrun in *; cbn [fst] in *.
  - split; [intros ex' [= <-]; exact Hall |].
    split; [discriminate |].
    intros _. exists examples. reflexivity.
  - pose proof (lookback_raises_days Hr) as Hdays.
    split; [discriminate |]. split.
    + intros e' [= <-]. split; [| split; assumption].
      intros Hnone. specialize (Hdb Hnone). discriminate.
    + intros [Hnone | Hnone]; [specialize (Hdb Hnone); discriminate |].
      contradiction.
Qed.

Section Settings.

Context {U : UnicodeData} {P : Platform}.
Variable pyobjc : option Foundation.
Variables cfg cfg' : Config.
Hypothesis same_days : DAYS_BACK cfg = DAYS_BACK cfg'.

Lemma get_messages_by_days connection chat_ids fx :
  get_messages_for_conversation pyobjc cfg connection chat_ids fx
  = get_messages_for_conversation pyobjc cfg' connection chat_ids fx.
Proof.
  unfold get_messages_for_conversation, lookback_cutoff.
  rewrite same_days. reflexivity.
Qed.

Lemma process_conversations_by_days conn conversations :
  forall all_examples fx,
    process_conversations pyobjc cfg conn conversations all_examples fx
    = process_conversations pyobjc cfg' conn conversations all_examples fx.
Proof.
  induction conversations as [|[participants chat_ids] rest IH];
    intros all_examples fx; [reflexivity |].
  cbn [process_conversations]. rewrite get_messages_by_days.
  destruct (get_messages_for_conversation pyobjc cfg' (Some conn) chat_ids
              fx) as [[[|m messages]|e] fx1]; [apply IH | | reflexivity].
  destruct (create_training_examples _); [apply IH | reflexivity].
Qed.

End Settings.

(** X25. Of the settings of [config.py], only [DAYS_BACK] and
    [PROCESS_GROUP_CHATS] reach the result: two configurations that agree on
    these two give the same pairs, whatever their message-length bounds and
    turn-gap threshold are. *)
Theorem only_two_settings_matter {U : UnicodeData} {P : Platform}
    (pyobjc : option Foundation) (cfg cfg' : Config)
    (db : option Connection) (fx : Effects) :
  DAYS_BACK cfg = DAYS_BACK cfg' ->
  PROCESS_GROUP_CHATS cfg = PROCESS_GROUP_CHATS cfg' ->
  process_all_conversations pyobjc cfg db fx
  = process_all_conversations pyobjc cfg' db fx.
Proof.
  intros Hdays Hgroups. unfold process_all_conversations.
  destruct db as [conn|]; [| reflexivity].
  pose proof (@process_conversations_by_days U P pyobjc cfg cfg' Hdays conn)
    as Hloop.
  unfold select_conversations, lookback_notice. rewrite Hgroups, Hdays.
  destruct (DAYS_BACK cfg') as [days|]; [| apply Hloop].
  destruct (lookback_date days fx) as [[d|e] fx1]; cbn [bind];
    [| reflexivity].
  destruct (strftime_date d); [apply Hloop | reflexivity].
Qed.

(* ------------------------------------------------------------------ *)
(** ** The processor object *)

Lemma connect_keeps_path (w : World) (self : Self) :
  db_path (snd (connect_to_database w self)) = db_path self.
Proof.
  unfold connect_to_database.
  destruct (path_exists w (db_path self)) as [[|]|e]; try reflexivity.
  destruct (sqlite3_connect w (db_path self)); reflexivity.
Qed.

Lemma connect_by_path (w : World) (s1 s2 : Self) :
  db_path s1 = db_path s2 ->
  fst (connect_to_database w s1) = fst (connect_to_database w s2)
  /\ (fst (connect_to_database w s1) = true ->
      snd (connect_to_database w s1) = snd (connect_to_database w s2)).
Proof.
  unfold connect_to_database. intros Hp. rewrite Hp.
  destruct (path_exists w (db_path s2)) as [[|]|e];
    try (split; [reflexivity | discriminate]).
  destruct (sqlite3_connect w (db_path s2));
    split; try reflexivity; discriminate.
Qed.

(** X18. After a run of [process_all_conversations] that could connect,
    whether it returned or raised, the connection of the processor is
    closed.  Further queries on the processor do not fail on the closed
    connection: [get_all_conversations] gives the empty mapping, and
    [get_messages_for_conversation] gives the empty list when it is given
    no thread id or when the lookback cutoff is computed; otherwise it
    raises what the computation of the cutoff raises. *)
Theorem processor_is_closed_after_run {U : UnicodeData} {P : Platform}
    (pyobjc : option Foundation) (cfg : Config) (w : World) (self : Self)
    (fx : Effects) :
  fst (connect_to_database w self) = true ->
  let after := snd (run_all_conversations pyobjc cfg w self fx) in
  (exists c, connection after = Some (mkHandle c true)
             /\ sqlite3_connect w (db_path self) = Ret c)
  /\ get_all_conversations (self_connection after) = []
  /\ (forall chat_ids fx',
        let result :=
          fst (get_messages_for_conversation pyobjc cfg
                 (self_connection after) chat_ids fx') in
        (chat_ids = [] -> result = Ret [])
        /\ (forall cutoff,
              fst (lookback_cutoff cfg fx') = Ret cutoff -> result = Ret [])
        /\ (forall e,
              chat_ids <> [] ->
              fst (lookback_cutoff cfg fx') = Raise e -> result = Raise e)).
Proof.
  unfold run_all_conversations, connect_to_database.
  destruct (path_exists w (db_path self)) as [[|]|e]; try discriminate.
  destruct (sqlite3_connect w (db_path self)) as [c|e]; [| discriminate].
  intros _. simpl. split; [exists c; auto |]. split; [reflexivity |].
  intros chat_ids fx'. unfold get_messages_for_conversation.
  destruct chat_ids as [|id ids].
  - split; [reflexivity |]. split; [reflexivity |].
    intros e Hne. contradiction.
  - split; [discriminate |].
    unfold self_connection, close_connection, answers_of. simpl.
    destruct (lookback_cutoff cfg fx') as [[cutoff|e] fx1]; cbn [fst].
    + split; [reflexivity | discriminate].
    + split; [discriminate |]. intros e' _ [= ->]. reflexivity.
Qed.

(** X19. Every run opens a connection of its own: what
    [process_all_conversations] returns depends on the path of the
    processor and on the world, not on the connection an earlier call has
    left behind; running it on a processor that has already been run gives
    what the first run would have given at that time. *)
Theorem runs_are_independent {U : UnicodeData} {P : Platform}
    (pyobjc : option Foundation) (cfg : Config) (w : World) (self : Self)
    (fx fx' : Effects) :
  fst (run_all_conversations pyobjc cfg w
         (snd (run_all_conversations pyobjc cfg w self fx)) fx')
  = fst (run_all_conversations pyobjc cfg w self fx').
Proof.
  set (after := snd (run_all_conversations pyobjc cfg w self fx)).
  assert (Hpath : db_path after = db_path self).
  { subst after. unfold run_all_conversations.
    pose proof (connect_keeps_path w self) as Hk.
    destruct (connect_to_database w self) as [[|] self1]; simpl in *;
      [| exact Hk].
    unfold close_connection. destruct (connection self1); simpl; exact Hk. }
  destruct (connect_by_path w after self Hpath) as [Hfst Hsnd].
  unfold run_all_conversations.
  destruct (connect_to_database w after) as [ok1 s1],
           (connect_to_database w self) as [ok2 s2].
  simpl in Hfst, Hsnd. subst ok2. destruct ok1; [| reflexivity].
  rewrite (Hsnd eq_refl). reflexivity.
Qed.

(** X20. [main] hands [save_to_csv] only a non-empty list of pairs whose
    sides are both non-empty texts.  Otherwise it reports that nothing was
    generated, as it does when the database file does not exist or cannot
    be opened, or it ends with the exception that the computation of the
    lookback date raised, which takes a [DAYS_BACK] that is not [None]:
    with [DAYS_BACK] set to [None], [main] does not raise before saving. *)
Theorem main_saves_only_pairs {U : UnicodeData} {P : Platform}
    (pyobjc : option Foundation) (cfg : Config) (w : World) (fx : Effects) :
  (fst (connect_to_database w (init w None)) = false ->
   main pyobjc cfg w fx = Ret NothingGenerated)
  /\ (main pyobjc cfg w fx = Ret NothingGenerated
      \/ (exists examples,
            main pyobjc cfg w fx = Ret (Saved examples)
            /\ examples <> []
            /\ Forall (fun ex => fst ex <> [] /\ snd ex <> []) examples)
      \/ (exists e,
            main pyobjc cfg w fx = Raise e
            /\ fst (connect_to_database w (init w None)) = true
            /\ lookback_raises cfg e))
  /\ (DAYS_BACK cfg = None ->
      exists outcome, main pyobjc cfg w fx = Ret outcome).
Proof.
  unfold main, run_all_conversations.
  destruct (connect_to_database w (init w None)) as [[|] self1];
    [| split; [reflexivity |]; split; [left; reflexivity |];
       intros _; eexists; reflexivity].
  split; [discriminate |].
  destruct (process_all_conversations_spec pyobjc cfg
              (self_connection self1) fx)
    as [(examples & fx' & Hrun & Hall) | (e & fx' & Hrun & Hr)];
    cbn [fst snd]; rewrite Hrun; cbn [fst].
  - destruct examples as [|ex examples].
    + split; [left; reflexivity | intros _; eexists; reflexivity].
    + split; [| intros _; eexists; reflexivity].
      right; left. exists (ex :: examples). split; [reflexivity |].
      split; [discriminate | exact Hall].
  - split.
    + right; right. exists e. split; [reflexivity |].
      split; [reflexivity | exact Hr].
    + intros Hnone. destruct (lookback_raises_days Hr Hnone).
Qed.

(** The run on the sample store saves one pair; with a lookback of 999999
    days [main] ends with [OverflowError]. *)
Example main_on_sample_world :
  main (U := latin1) (P := exact_platform) None config sample_world fresh_run
  = Ret (Saved [(lit "ok! hello", lit "see you")])
  /\ main (U := latin1) (P := exact_platform) None config_far_back
       sample_world fresh_run
     = Raise OverflowError.
Proof. vm_compute. split; reflexivity. Qed.

(* ------------------------------------------------------------------ *)
(** ** Instances of the further conditional statements *)

Lemma chronological_turns_witness :
  Forall (fun t => (t_start_time t <= t_end_time t)%Z)
         (group_messages_into_turns [msg_hi; msg_there; msg_hey])
  /\ turns_in_order (group_messages_into_turns [msg_hi; msg_there; msg_hey]).
Proof.
  apply (@chronological_turns [msg_hi; msg_there; msg_hey]).
  repeat constructor; unfold date_le; simpl; lia.
Defined.

Lemma turns_of_concatenation_witness :
  group_messages_into_turns (([msg_hi] ++ [msg_there]) ++ msg_hey :: [])
  = group_messages_into_turns ([msg_hi] ++ [msg_there])
    ++ group_messages_into_turns (msg_hey :: []).
Proof.
  apply (@turns_of_concatenation [msg_hi] [] msg_there msg_hey).
  discriminate.
Defined.

Lemma prompts_come_from_others_witness :
  Forall (fun ex =>
            fst ex = CONVERSATION_STARTER
            \/ exists p,
                 In p (group_messages_into_turns [msg_hi; msg_there; msg_hey])
                 /\ t_is_from_me p = false /\ fst ex = t_text p)
         [(lit "hi there", lit "hey")].
Proof.
  apply (@prompts_come_from_others [msg_hi; msg_there; msg_hey]
           [(lit "hi there", lit "hey")]).
  - intros m m' Hm Hm' Hme Hme'.
    destruct Hm as [<- | [<- | [<- | []]]]; try discriminate.
    destruct Hm' as [<- | [<- | [<- | []]]]; try discriminate.
    reflexivity.
  - reflexivity.
Defined.

Lemma merged_messages_are_the_surviving_rows_witness :
  exists collected,
    Forall2 (message_of_row (U := latin1) (P := exact_platform) None)
            (filter (survives (U := latin1) None)
               [row_earlier; row_hello; row_tapback; row_ahead; row_corrupt])
            collected
    /\ get_messages_for_conversation (U := latin1) (P := exact_platform)
         None config (Some store_two_threads) [1; 2]%Z fresh_run
       = (Ret (sort_by_date collected), mkEffects 2 [corrupt_timestamp])
    /\ length (sort_by_date collected) = 4%nat.
Proof.
  apply (@merged_messages_are_the_surviving_rows latin1 exact_platform None
           config store_two_threads [1; 2]%Z (Some 754790400000000000%Z)
           [row_earlier; row_hello; row_tapback; row_ahead; row_corrupt]
           fresh_run).
  - discriminate.
  - reflexivity.
  - reflexivity.
  - repeat (apply Forall_cons; [vm_compute; auto |]). apply Forall_nil.
Defined.

Lemma unhandled_conversion_empties_the_conversation_witness :
  fst (get_messages_for_conversation (U := latin1)
         (P := overflowing_platform) None config (Some store_overflow)
         [1]%Z fresh_run)
  = Ret [].
Proof.
  apply (@unhandled_conversion_empties_the_conversation latin1
           overflowing_platform None config store_overflow [1]%Z
           (Some 754790400000000000%Z) [row_hello; row_overflow] fresh_run
           row_overflow OverflowError).
  - reflexivity.
  - vm_compute. reflexivity.
  - right; left; reflexivity.
  - vm_compute. reflexivity.
  - vm_compute. reflexivity.
  - discriminate.
  - discriminate.
Defined.

Lemma conversations_closed_form_witness :
  get_all_conversations (Some store_same_participant)
  = map (fun k =>
           (k, chats_with_key k
                 [participants_row 1 [handle_A];
                  participants_row 2 [handle_A; handle_A];
                  participants_row 3 [handle_A]]))
        (first_seen
           (row_keys [participants_row 1 [handle_A];
                      participants_row 2 [handle_A; handle_A];
                      participants_row 3 [handle_A]])).
Proof.
  apply (@conversations_closed_form store_same_participant). reflexivity.
Defined.

Lemma key_of_comma_free_handles_witness :
  participant_key (join (lit ",") [handle_B; handle_A])
  = sorted [handle_B; handle_A]
  /\ Permutation [handle_B; handle_A]
                 (participant_key (join (lit ",") [handle_B; handle_A]))
  /\ length (participant_key (join (lit ",") [handle_B; handle_A]))
     = length [handle_B; handle_A].
Proof.
  apply (@key_of_comma_free_handles [handle_B; handle_A]).
  - discriminate.
  - repeat (apply Forall_cons;
            [intros Hin; vm_compute in Hin; intuition discriminate |]).
    apply Forall_nil.
Defined.

Lemma ordinary_text_is_kept_witness :
  is_junk_message (Some (104%N :: lit "ello there")) = false.
Proof.
  apply (@ordinary_text_is_kept 104%N (lit "ello there")).
  - reflexivity.
  - vm_compute. discriminate.
Defined.

Lemma extracted_text_is_trimmed_witness :
  exists s,
    extract_message_text (U := latin1) None (Some (lit " see you ")) None
    = Some s
    /\ s <> [] /\ trimmed s /\ strip s = s.
Proof.
  apply (@extracted_text_is_trimmed latin1 None (Some (lit " see you ")) None).
  exists (lit " see you "). split; [reflexivity | vm_compute; discriminate].
Defined.

Lemma ascii_blob_decodes_to_itself_witness :
  decode_attributed_body (U := latin1) None [Byte.x68; Byte.x69]
  = Some (strip (map Byte.to_N [Byte.x68; Byte.x69])).
Proof.
  apply (@ascii_blob_decodes_to_itself latin1 [Byte.x68; Byte.x69]).
  - discriminate.
  - repeat (apply Forall_cons; [vm_compute; reflexivity |]). apply Forall_nil.
Defined.

Lemma accepted_salvage_text_witness :
  lit "ok!"
  = filter (isprintable (UnicodeData := latin1))
           (strip (decode_utf8_ignore [Byte.x6f; Byte.x6b; Byte.x21]))
  /\ forallb (isprintable (UnicodeData := latin1)) (lit "ok!") = true
  /\ (2 < len (lit "ok!") <= len [Byte.x6f; Byte.x6b; Byte.x21])%Z.
Proof.
  apply (@accepted_salvage_text latin1 [Byte.x6f; Byte.x6b; Byte.x21]
           (lit "ok!")).
  vm_compute. reflexivity.
Defined.

Lemma processor_is_closed_after_run_witness :
  let after :=
    snd (run_all_conversations (U := latin1) (P := exact_platform) None
           config_far_back sample_world (init sample_world None) fresh_run) in
  (exists c, connection after = Some (mkHandle c true)
             /\ sqlite3_connect sample_world
                  (db_path (init sample_world None)) = Ret c)
  /\ get_all_conversations (self_connection after) = []
  /\ (forall chat_ids fx',
        let result :=
          fst (get_messages_for_conversation (U := latin1)
                 (P := exact_platform) None config_far_back
                 (self_connection after) chat_ids fx') in
        (chat_ids = [] -> result = Ret [])
        /\ (forall cutoff,
              fst (lookback_cutoff (P := exact_platform) config_far_back fx')
              = Ret cutoff ->
              result = Ret [])
        /\ (forall e,
              chat_ids <> [] ->
              fst (lookback_cutoff (P := exact_platform) config_far_back fx')
              = Raise e ->
              result = Raise e)).
Proof.
  apply (@processor_is_closed_after_run latin1 exact_platform None
           config_far_back sample_world (init sample_world None) fresh_run).
  reflexivity.
Defined.

Lemma grouping_partitions_the_chats_witness :
  Permutation
    (concat (map snd (get_all_conversations (Some store_same_participant))))
    (map fst (filter has_participants
                     [participants_row 1 [handle_A];
                      participants_row 2 [handle_A; handle_A];
                      participants_row 3 [handle_A]]))
  /\ Forall (fun kv => snd kv <> [])
            (get_all_conversations (Some store_same_participant)).
Proof.
  apply (@grouping_partitions_the_chats store_same_participant). reflexivity.
Defined.

Lemma at_most_half_the_turns_witness :
  (2 * length [(lit "hi there", lit "hey")]
   <= length (group_messages_into_turns [msg_hi; msg_there; msg_hey]) + 1)%nat.
Proof.
  apply (@at_most_half_the_turns [msg_hi; msg_there; msg_hey]
           [(lit "hi there", lit "hey")]).
  - intros m m' Hm Hm' Hme Hme'.
    destruct Hm as [<- | [<- | [<- | []]]]; try discriminate.
    destruct Hm' as [<- | [<- | [<- | []]]]; try discriminate.
    reflexivity.
  - reflexivity.
Defined.

Lemma only_two_settings_matter_witness :
  process_all_conversations (U := latin1) (P := exact_platform) None config
    (Some store_two_threads) fresh_run
  = process_all_conversations (U := latin1) (P := exact_platform) None
      (mkConfig (Some 30%Z) 10 5 0 false) (Some store_two_threads) fresh_run.
Proof.
  apply (@only_two_settings_matter latin1 exact_platform None config
           (mkConfig (Some 30%Z) 10 5 0 false) (Some store_two_threads)
           fresh_run);
    reflexivity.
Defined.
